(** * location-sync: ingestion, spatial indexing, batch import and backfill

    A shallow embedding of [src/index.ts] (the Cloudflare Worker that stores
    location pings in a D1 table and answers range queries) together with
    the properties its specification states.

    Layout:
    - [JS]      the JavaScript values and built-ins the handlers rely on
                (numbers are IEEE binary64, as in the language);
    - [Sql]     the SQLite string functions behind [TS_NORM];
    - [Worker]  the handlers, written against an interface for the D1
                database and one for the h3-js hex grid;
    - [Table]   an executable model of the [locations] table;
    - [Spec]    the specification's rules as definitions of their own;
    - the properties: order on doubles, radius policy, query parameters,
      timestamp normalisation, the read query, ingestion of one message,
      paging and batch import, the index columns, backfill. *)

From stdpp Require Import gmap strings list.
From Stdlib Require Import ZArith Floats Ascii.
From Equations Require Import Equations.

Set Warnings "-inexact-float,-register-all".
#[local] Open Scope string_scope.
#[local] Open Scope Z_scope.

(* ===================================================================== *)
(** ** JavaScript values and built-ins *)
(* ===================================================================== *)

Module JS.

(** JSON values as [request.json()] and D1 hand them to the handlers, plus
    [undefined] (the value of a property that is absent). *)
Inductive value :=
| VUndefined
| VNull
| VBool (b : bool)
| VNum (n : float)
| VStr (s : string)
| VArr (xs : list value)
| VObj (fields : gmap string value).

(** [Record<string, unknown>]. *)
Abbreviation record := (gmap string value).

(** [o.k]: an absent property reads as [undefined]. *)
Definition prop (o : record) (k : string) : value := default VUndefined (o !! k).

(** ToBoolean, used by [if (x)], [!x] and [x ? a : b]. *)
Definition truthy (v : value) : bool :=
  match v with
  | VUndefined | VNull => false
  | VBool b => b
  | VNum n => negb (PrimFloat.is_nan n || PrimFloat.is_zero n)
  | VStr s => negb (String.eqb s "")
  | VArr _ | VObj _ => true
  end.

(** [v === "s"] for a string literal. *)
Definition strict_eq_str (v : value) (s : string) : bool :=
  match v with VStr t => String.eqb t s | _ => false end.

(** [v !== undefined]. *)
Definition not_undefined (v : value) : bool :=
  match v with VUndefined => false | _ => true end.

(** [v == null]: true of [null] and [undefined] only. *)
Definition loose_eq_null (v : value) : bool :=
  match v with VUndefined | VNull => true | _ => false end.

(** [v ?? d]. *)
Definition nullish (v d : value) : value :=
  if loose_eq_null v then d else v.

(** *** Numbers *)

Definition isNaN (x : float) : bool := PrimFloat.is_nan x.

Definition is_neg_zero (x : float) : bool :=
  match PrimFloat.classify x with NZero => true | _ => false end.

(** [Math.max] and [Math.min] of two arguments: NaN if either is NaN, and
    -0 is smaller than +0. *)
Definition Math_max (x y : float) : float :=
  if PrimFloat.is_nan x || PrimFloat.is_nan y then nan
  else if PrimFloat.ltb x y then y
  else if PrimFloat.ltb y x then x
  else if is_neg_zero x then y else x.

Definition Math_min (x y : float) : float :=
  if PrimFloat.is_nan x || PrimFloat.is_nan y then nan
  else if PrimFloat.ltb x y then x
  else if PrimFloat.ltb y x then y
  else if is_neg_zero x then x else y.

(** The double nearest to an integer; [negz] is the sign of a zero result. *)
Definition of_Z (negz : bool) (z : Z) : float :=
  SF2Prim (binary_normalize prec emax z 0 negz).

(** [Math.ceil]: NaN, infinities, zeros and integers are returned as they
    are; a negative fraction above -1 rounds to -0. *)
Definition Math_ceil (x : float) : float :=
  match Prim2SF x with
  | S754_finite s m e =>
      if 0 <=? e then x
      else
        let d := 2 ^ (- e) in
        let q := Z.pos m / d in
        if Z.pos m mod d =? 0 then x
        else if s then of_Z true (- q) else of_Z false (q + 1)
  | _ => x
  end.

(** The integer part of a finite double (truncation toward zero). *)
Definition trunc (x : float) : option Z :=
  match Prim2SF x with
  | S754_zero _ => Some 0
  | S754_finite s m e =>
      let a := if 0 <=? e then Z.pos m * 2 ^ e else Z.pos m / 2 ^ (- e) in
      Some (if s then - a else a)
  | _ => None
  end.

(** The double nearest to [M * 10^E] (round to nearest, ties to even),
    with the sign [neg]. For a negative exponent the quotient is computed
    with more than 64 significant bits and a sticky bit, which is enough
    for the final rounding to 53 bits to be the correct one. *)
Definition decimal_to_float (neg : bool) (M E : Z) : float :=
  if M =? 0 then (if neg then (-0)%float else 0%float)
  else if 400 <? E then (if neg then neg_infinity else infinity)
  else if E + (Z.log2 M + 1) / 3 + 1 <? -400 then (if neg then (-0)%float else 0%float)
  else if 0 <=? E then of_Z neg ((if neg then - M else M) * 10 ^ E)
  else
    let D := 10 ^ (- E) in
    let s := Z.max 0 (Z.log2 D + 66 - Z.log2 M) in
    let q := M * 2 ^ s / D in
    let sticky := if (M * 2 ^ s) mod D =? 0 then 0 else 1 in
    let m := 2 * q + sticky in
    SF2Prim (binary_normalize prec emax (if neg then - m else m) (- s - 1) neg).

(** *** Reading numbers from strings

    Strings are sequences of 8-bit characters here, so only the ASCII white
    space of [StrWhiteSpaceChar] is recognised. *)

Definition is_ws (c : ascii) : bool :=
  let n := Z.of_N (N_of_ascii c) in
  ((9 <=? n) && (n <=? 13)) || (n =? 32).

Definition digit_val (radix : Z) (c : ascii) : option Z :=
  let n := Z.of_N (N_of_ascii c) in
  let d := if (48 <=? n) && (n <=? 57) then n - 48
           else if (97 <=? n) && (n <=? 122) then n - 87
           else if (65 <=? n) && (n <=? 90) then n - 55
           else 99 in
  if d <? radix then Some d else None.

(** The longest prefix of digits of the radix, and what follows it. *)
Fixpoint span_digits (radix : Z) (s : list ascii) : list Z * list ascii :=
  match s with
  | c :: r =>
      match digit_val radix c with
      | Some d => let '(ds, r') := span_digits radix r in (d :: ds, r')
      | None => ([], s)
      end
  | [] => ([], [])
  end.

Definition digits_to_Z (radix : Z) (ds : list Z) : Z :=
  fold_left (fun acc d => acc * radix + d) ds 0.

Fixpoint drop_ws (s : list ascii) : list ascii :=
  match s with
  | c :: r => if is_ws c then drop_ws r else s
  | [] => []
  end.

Definition trim (s : list ascii) : list ascii :=
  rev (drop_ws (rev (drop_ws s))).

Definition is_char (c : ascii) (d : string) : bool :=
  match d with String d0 _ => Ascii.eqb c d0 | EmptyString => false end.

(** An optional sign: [true] for a minus. *)
Definition read_sign (s : list ascii) : bool * list ascii :=
  match s with
  | c :: r => if is_char c "-" then (true, r)
              else if is_char c "+" then (false, r) else (false, s)
  | [] => (false, [])
  end.

Fixpoint starts_with (p s : list ascii) : option (list ascii) :=
  match p, s with
  | [], _ => Some s
  | a :: p', b :: s' => if Ascii.eqb a b then starts_with p' s' else None
  | _ :: _, [] => None
  end.

(** The exponent part [e±ddd] if there is a complete one, else nothing is
    consumed. *)
Definition read_exponent (s : list ascii) : Z * list ascii :=
  match s with
  | c :: r =>
      if is_char c "e" || is_char c "E" then
        let '(neg, r1) := read_sign r in
        let '(ds, r2) := span_digits 10 r1 in
        match ds with
        | [] => (0, s)
        | _ => ((if neg then - digits_to_Z 10 ds else digits_to_Z 10 ds), r2)
        end
      else (0, s)
  | [] => (0, [])
  end.

(** The longest prefix that is a [StrDecimalLiteral] (sign, [Infinity], or
    digits with an optional fraction and exponent), its value, and the
    rest of the input. *)
Definition str_decimal_prefix (s : list ascii) : option (float * list ascii) :=
  let '(neg, s1) := read_sign s in
  match starts_with (String.list_ascii_of_string "Infinity") s1 with
  | Some r => Some ((if neg then neg_infinity else infinity), r)
  | None =>
      let '(ip, s2) := span_digits 10 s1 in
      let '(fp, s3) :=
        match s2 with
        | c :: r => if is_char c "." then span_digits 10 r else ([], s2)
        | [] => ([], s2)
        end in
      match (ip ++ fp)%list with
      | [] => None
      | ds =>
          let '(ex, s4) := read_exponent s3 in
          Some (decimal_to_float neg (digits_to_Z 10 ds) (ex - Z.of_nat (length fp)), s4)
      end
  end.

(** [parseFloat(string)]. *)
Definition parseFloat (input : string) : float :=
  match str_decimal_prefix (drop_ws (String.list_ascii_of_string input)) with
  | Some (x, _) => x
  | None => nan
  end.

(** [parseInt(string)] with no radix argument: base 10, or 16 after a
    [0x] prefix; NaN when no digit can be read. *)
Definition parseInt (input : string) : float :=
  let '(neg, s1) := read_sign (drop_ws (String.list_ascii_of_string input)) in
  let '(radix, s2) :=
    match s1 with
    | c0 :: c1 :: r =>
        if is_char c0 "0" && (is_char c1 "x" || is_char c1 "X") then (16, r) else (10, s1)
    | _ => (10, s1)
    end in
  match fst (span_digits radix s2) with
  | [] => nan
  | ds => of_Z neg (if neg then - digits_to_Z radix ds else digits_to_Z radix ds)
  end.

(** All of [s] as an unsigned integer of the radix. *)
Definition radix_literal (radix : Z) (s : list ascii) : float :=
  match span_digits radix s with
  | ((_ :: _) as ds, []) => of_Z false (digits_to_Z radix ds)
  | _ => nan
  end.

(** StringToNumber: the whole trimmed string must be a numeric literal;
    the empty string is 0. *)
Definition StringToNumber (input : string) : float :=
  match trim (String.list_ascii_of_string input) with
  | [] => 0%float
  | (c0 :: c1 :: r) as s =>
      if is_char c0 "0" && (is_char c1 "x" || is_char c1 "X") then radix_literal 16 r
      else if is_char c0 "0" && (is_char c1 "o" || is_char c1 "O") then radix_literal 8 r
      else if is_char c0 "0" && (is_char c1 "b" || is_char c1 "B") then radix_literal 2 r
      else match str_decimal_prefix s with Some (x, []) => x | _ => nan end
  | s => match str_decimal_prefix s with Some (x, []) => x | _ => nan end
  end.

(** [Number(v)]. An array converts through its string form: the empty
    array is [""], a one-element array is its element's string, and a
    longer one contains a comma, which no numeric literal does. An object
    prints as ["[object Object]"]. *)
Fixpoint Number (v : value) : float :=
  match v with
  | VUndefined => nan
  | VNull => 0%float
  | VBool b => if b then 1%float else 0%float
  | VNum n => n
  | VStr s => StringToNumber s
  | VArr [] => 0%float
  | VArr [x] =>
      match x with
      | VUndefined | VNull => 0%float
      | VBool _ | VObj _ => nan
      | VNum n => if PrimFloat.is_zero n then 0%float else n
      | VStr _ | VArr _ => Number x
      end
  | VArr _ => nan
  | VObj _ => nan
  end.

(** *** Dates *)

Fixpoint pad_digits (width : nat) (n : Z) : string :=
  match width with
  | O => ""
  | S w => pad_digits w (n / 10) +:+ String (ascii_of_N (Z.to_N (48 + n mod 10))) ""
  end.

(** The civil date of a day number counted from 1970-01-01. *)
Definition civil_from_days (days : Z) : Z * Z * Z :=
  let z := days + 719468 in
  let era := z / 146097 in
  let doe := z - era * 146097 in
  let yoe := (doe - doe / 1460 + doe / 36524 - doe / 146096) / 365 in
  let doy := doe - (365 * yoe + yoe / 4 - yoe / 100) in
  let mp := (5 * doy + 2) / 153 in
  let d := doy - (153 * mp + 2) / 5 + 1 in
  let m := if mp <? 10 then mp + 3 else mp - 9 in
  let y := yoe + era * 400 + (if m <=? 2 then 1 else 0) in
  (y, m, d).

(** [new Date(ms).toISOString()]; [None] is the RangeError of an invalid
    date (a time value that is not finite or out of range). *)
Definition Date_toISOString (ms : float) : option string :=
  match trunc ms with
  | Some t =>
      if (Z.abs t <=? 8640000000000000) then
        let '(y, m, d) := civil_from_days (t / 86400000) in
        let r := t mod 86400000 in
        let year := if (0 <=? y) && (y <=? 9999) then pad_digits 4 y
                    else (if y <? 0 then "-" else "+") +:+ pad_digits 6 (Z.abs y) in
        Some (year +:+ "-" +:+ pad_digits 2 m +:+ "-" +:+ pad_digits 2 d +:+ "T"
              +:+ pad_digits 2 (r / 3600000) +:+ ":" +:+ pad_digits 2 (r / 60000 mod 60)
              +:+ ":" +:+ pad_digits 2 (r / 1000 mod 60) +:+ "." +:+ pad_digits 3 (r mod 1000)
              +:+ "Z")
      else None
  | None => None
  end.

End JS.

(* ===================================================================== *)
(** ** The SQLite functions behind the timestamp normalisation *)
(* ===================================================================== *)

(** A text is a sequence of 8-bit characters here, each counting as one
    character for [length], [substr] and GLOB, and none of them the NUL
    that ends a text for SQLite. *)

Module Sql.

Abbreviation chars := String.list_ascii_of_string.
Abbreviation text := String.string_of_list_ascii.

(** *** GLOB *)

(** The elements of a GLOB pattern: [*], [?], a character set [[...]]
    (possibly negated, each item a range, a single character being the
    range from itself to itself) and a literal character. *)
Inductive atom :=
| Star
| AnyChar
| CharSet (inverted : bool) (items : list (ascii * ascii))
| Lit (c : ascii).

(** Reading a pattern, character by character. [st] is [None] outside a
    set; inside one it holds whether the set is negated, how far into the
    set the reader is (0 right after the bracket, 1 after a caret, 2 later:
    a closing bracket is a member in positions 0 and 1), the previous
    member if a range may start from it, and the items so far. [None] is
    a set that is never closed, which matches nothing. *)
Fixpoint parse_glob (st : option (bool * nat * option ascii * list (ascii * ascii)))
    (p : list ascii) : option (list atom) :=
  match st, p with
  | None, [] => Some []
  | None, c :: r =>
      if JS.is_char c "*" then cons Star <$> parse_glob None r
      else if JS.is_char c "?" then cons AnyChar <$> parse_glob None r
      else if JS.is_char c "[" then parse_glob (Some (false, 0%nat, None, [])) r
      else cons (Lit c) <$> parse_glob None r
  | Some _, [] => None
  | Some (inv, pos, prior, items), c :: r =>
      if (pos =? 0)%nat && JS.is_char c "^" then parse_glob (Some (true, 1%nat, None, items)) r
      else if (pos <=? 1)%nat && JS.is_char c "]" then
        parse_glob (Some (inv, 2%nat, None, (c, c) :: items)) r
      else if JS.is_char c "]" then cons (CharSet inv items) <$> parse_glob None r
      else if JS.is_char c "-" then
        match prior, r with
        | Some lo, hi :: r' =>
            if JS.is_char hi "]" then parse_glob (Some (inv, 2%nat, Some c, (c, c) :: items)) r
            else parse_glob (Some (inv, 2%nat, None, (lo, hi) :: items)) r'
        | _, _ => parse_glob (Some (inv, 2%nat, Some c, (c, c) :: items)) r
        end
      else parse_glob (Some (inv, 2%nat, Some c, (c, c) :: items)) r
  end.

Definition in_range (c : ascii) (item : ascii * ascii) : bool :=
  (N_of_ascii (fst item) <=? N_of_ascii c)%N && (N_of_ascii c <=? N_of_ascii (snd item))%N.

Definition in_set (c : ascii) (inv : bool) (items : list (ascii * ascii)) : bool :=
  xorb inv (existsb (in_range c) items).

Fixpoint glob_atoms (ps : list atom) (s : list ascii) : bool :=
  match ps with
  | [] => match s with [] => true | _ => false end
  | Star :: ps' =>
      (fix star (s : list ascii) : bool :=
         glob_atoms ps' s || match s with [] => false | _ :: s' => star s' end) s
  | AnyChar :: ps' =>
      match s with _ :: s' => glob_atoms ps' s' | [] => false end
  | CharSet inv items :: ps' =>
      match s with c :: s' => in_set c inv items && glob_atoms ps' s' | [] => false end
  | Lit a :: ps' =>
      match s with c :: s' => Ascii.eqb a c && glob_atoms ps' s' | [] => false end
  end.

(** [x GLOB pattern]. *)
Definition glob (pattern x : string) : bool :=
  match parse_glob None (chars pattern) with
  | Some ps => glob_atoms ps (chars x)
  | None => false
  end.

(** *** substr and length *)

(** The default SQLITE_LIMIT_LENGTH, the length [substr(X, Y)] asks for. *)
Definition SQLITE_MAX_LENGTH : Z := 1000000000.

Definition length (x : string) : Z := Z.of_nat (String.length x).

(** [substr(X, P1, P2)], from SQLite's [substrFunc]: positions count from 1,
    a negative start counts from the end, a negative length takes the
    characters before the start. *)
Definition substr3 (x : string) (p1 p2 : Z) : string :=
  let len := length x in
  let '(p1, p2) :=
    if p1 <? 0 then
      let p1 := p1 + len in
      if p1 <? 0 then (0, if p2 <? 0 then 0 else p2 + p1) else (p1, p2)
    else if 0 <? p1 then (p1 - 1, p2)
    else if 0 <? p2 then (p1, p2 - 1)
    else (p1, p2) in
  let '(p1, p2) :=
    if p2 <? 0 then
      let p2 := if p2 <? - p1 then p1 else - p2 in
      (p1 - p2, p2)
    else (p1, p2) in
  text (take (Z.to_nat (Z.min p2 len)) (drop (Z.to_nat (Z.min p1 len)) (chars x))).

(** [substr(X, P1)]. *)
Definition substr2 (x : string) (p1 : Z) : string := substr3 x p1 SQLITE_MAX_LENGTH.

(** *** TS_NORM *)

(** The source text of the expression, as spliced into the queries. *)
Definition TS_NORM : string :=
  "CASE WHEN timestamp GLOB '*[+-][0-9][0-9][0-9][0-9]'
  THEN substr(timestamp, 1, length(timestamp) - 2) || ':' || substr(timestamp, -2)
  ELSE timestamp END".

Definition TS_UTC : string := "datetime(" +:+ TS_NORM +:+ ")".

(** What [TS_NORM] evaluates to on a row whose [timestamp] column holds the
    given text. *)
Definition ts_norm (timestamp : string) : string :=
  if glob "*[+-][0-9][0-9][0-9][0-9]" timestamp
  then substr3 timestamp 1 (length timestamp - 2) +:+ ":" +:+ substr2 timestamp (-2)
  else timestamp.

(** The rule in the specification's words: a string that ends in a sign
    followed by four digits gets a colon before its last two digits; any
    other string is returned as it is. *)
Definition is_sign (c : ascii) : bool := JS.is_char c "+" || JS.is_char c "-".

Definition is_digit (c : ascii) : bool :=
  (48 <=? N_of_ascii c)%N && (N_of_ascii c <=? 57)%N.

Definition ends_in_compact_offset (s : list ascii) : bool :=
  match rev s with
  | d4 :: d3 :: d2 :: d1 :: sg :: _ =>
      is_sign sg && is_digit d1 && is_digit d2 && is_digit d3 && is_digit d4
  | _ => false
  end.

(** The same condition as a proposition: a sign and four digits after
    any prefix. *)
Definition compact_offset_at_end (s : list ascii) : Prop :=
  exists pre sg d1 d2 d3 d4,
    s = (pre ++ [sg; d1; d2; d3; d4])%list /\
    is_sign sg && is_digit d1 && is_digit d2 && is_digit d3 && is_digit d4 = true.

(** The atoms of the pattern of [TS_NORM] after the star. *)
Definition offset_atoms : list atom :=
  [CharSet false [("-", "-"); ("+", "+")]; CharSet false [("0", "9"); ("0", "0")];
   CharSet false [("0", "9"); ("0", "0")]; CharSet false [("0", "9"); ("0", "0")];
   CharSet false [("0", "9"); ("0", "0")]]%char.

Definition normalize_spec (timestamp : string) : string :=
  let s := chars timestamp in
  if ends_in_compact_offset s then
    text (take (List.length s - 2) s ++ chars ":" ++ drop (List.length s - 2) s)%list
  else timestamp.

End Sql.

(* ===================================================================== *)
(** ** The worker *)
(* ===================================================================== *)

Module Worker.
Import JS.

(** *** Collaborators *)

(** h3-js: [latLngToCell(lat, lng, res)] and [gridDisk(origin, k)]. *)
Class HexGrid := {
  latLngToCell : float -> float -> Z -> string;
  gridDisk : string -> float -> list string;
}.

(** The statements the worker prepares. An INSERT is its column list and
    the values bound to the placeholders, in order; the UPDATE is
    [UPDATE locations SET h3_res7 = ?, h3_res9 = ? WHERE id = ?]. The [id]
    column is an INTEGER PRIMARY KEY, so a row id is an integer. *)
Inductive stmt :=
| Insert (columns : list string) (binds : list value)
| UpdateH3 (h3_res7 h3_res9 : value) (id : Z).

(** A row of [SELECT id, lat, lon FROM locations ...]. *)
Record coord_row := { row_id : Z; row_lat : value; row_lon : value }.

(** The D1 database as the handlers use it. [d1_run] is
    [prepare(..).bind(..).run()] and [d1_batch] is [DB.batch(stmts)]; [None]
    is a rejected promise. The three reads are the fixed queries of
    [handleBackfillH3]:
    [SELECT id, lat, lon .. WHERE h3_res7 IS NULL AND lat IS NOT NULL AND
    lon IS NOT NULL LIMIT n], the COUNT over the same condition, and
    [SELECT COUNT( * ) FROM locations]. *)
Class D1 (DB : Type) := {
  d1_run : stmt -> DB -> option DB;
  d1_batch : list stmt -> DB -> option DB;
  d1_select_unindexed : Z -> DB -> list coord_row;
  d1_count_unindexed : DB -> Z;
  d1_count_all : DB -> Z;
}.

(** *** Effects

    A handler runs against the database and may throw. The calls it makes
    to the write interface are recorded in the order they are made. *)

Inductive exn := TypeError | RangeError | D1_ERROR.

Inductive outcome (A : Type) :=
| Returned (a : A)
| Thrown (e : exn).
Arguments Returned {A} a.
Arguments Thrown {A} e.

Inductive call :=
| Run (s : stmt)
| Batch (ss : list stmt).

Record world (DB : Type) := World { db : DB; calls : list call }.
Arguments World {DB} db calls.
Arguments db {DB} w.
Arguments calls {DB} w.

Definition M (DB A : Type) : Type := world DB -> outcome A * world DB.

Definition ret {DB A} (a : A) : M DB A := fun w => (Returned a, w).

Definition bind {DB A B} (m : M DB A) (k : A -> M DB B) : M DB B :=
  fun w => match m w with
           | (Returned a, w') => k a w'
           | (Thrown e, w') => (Thrown e, w')
           end.

Definition throw {DB A} (e : exn) : M DB A := fun w => (Thrown e, w).

(** [try { m } catch (e) { h }]. *)
Definition try_catch {DB A} (m : M DB A) (h : exn -> M DB A) : M DB A :=
  fun w => match m w with
           | (Returned a, w') => (Returned a, w')
           | (Thrown e, w') => h e w'
           end.

Declare Scope worker_scope.
Delimit Scope worker_scope with worker.
Notation "x <- m ;; k" := (bind m (fun x => k))
  (at level 100, m at next level, right associativity) : worker_scope.
Notation "m ;;; k" := (bind m (fun _ => k))
  (at level 100, right associativity) : worker_scope.
#[local] Open Scope worker_scope.

Section Database.
Context {DB : Type} {d1 : D1 DB}.

Definition db_run (s : stmt) : M DB unit :=
  fun w =>
    let log := (calls w ++ [Run s])%list in
    match d1_run s (db w) with
    | Some d => (Returned tt, World d log)
    | None => (Thrown D1_ERROR, World (db w) log)
    end.

Definition db_batch (ss : list stmt) : M DB unit :=
  fun w =>
    let log := (calls w ++ [Batch ss])%list in
    match d1_batch ss (db w) with
    | Some d => (Returned tt, World d log)
    | None => (Thrown D1_ERROR, World (db w) log)
    end.

Definition db_select_unindexed (limit : Z) : M DB (list coord_row) :=
  fun w => (Returned (d1_select_unindexed limit (db w)), w).

Definition db_count_unindexed : M DB Z :=
  fun w => (Returned (d1_count_unindexed (db w)), w).

Definition db_count_all : M DB Z :=
  fun w => (Returned (d1_count_all (db w)), w).

(** [const batchSize = 100], in both bulk handlers. *)
Definition batchSize : nat := 100.

(** The paging loop of both bulk handlers:
    [for (let i = 0; i < xs.length; i += batchSize)
       { const chunk = xs.slice(i, i + batchSize); body }]
    with the loop's variables as the state [st]; [body] gets the offset
    and the chunk. *)
Equations? for_chunks {A St : Type} (xs : list A)
    (body : nat -> list A -> St -> M DB St) (i : nat) (st : St) (w : world DB)
    : outcome St * world DB by wf (length xs - i)%nat lt :=
  for_chunks xs body i st w with decide (i < length xs)%nat := {
    | left _ with body i (take batchSize (drop i xs)) st w := {
        | (Returned st', w') => for_chunks xs body (i + batchSize) st' w'
        | (Thrown e, w') => (Thrown e, w') }
    | right _ => (Returned st, w) }.
Proof. unfold batchSize. lia. Qed.

End Database.

(** *** Responses *)

Record Response := { status : Z; body : value }.

Definition jsonResponse (data : value) (status : Z) : Response :=
  {| status := status; body := data |}.

Definition errorResponse (message : string) (status : Z) : Response :=
  jsonResponse (VObj {[ "error" := VStr message ]}) status.

(** A property of a JSON response body. *)
Definition field (r : Response) (k : string) : value :=
  match body r with VObj f => prop f k | _ => VUndefined end.

(** A count as a JavaScript number. *)
Definition num (z : Z) : value := VNum (of_Z false z).

(** [v] as the target of a property read: [null] and [undefined] have no
    properties (reading one throws a TypeError); a primitive or an array
    has none of the properties the handlers read. *)
Definition fields_of (v : value) : option record :=
  match v with
  | VObj f => Some f
  | VUndefined | VNull => None
  | _ => Some ∅
  end.

Definition obj (l : list (string * value)) : value := VObj (list_to_map l).

Definition len {A} (l : list A) : Z := Z.of_nat (length l).

(** *** H3 helpers *)

Record H3 := { h3_res7 : option string; h3_res9 : option string }.

(** A [string | null] as a bound value. *)
Definition cell_value (c : option string) : value :=
  match c with Some s => VStr s | None => VNull end.

Section Handlers.
Context {grid : HexGrid} {DB : Type} {d1 : D1 DB}.

Definition computeH3 (lat lon : value) : H3 :=
  if loose_eq_null lat || loose_eq_null lon then {| h3_res7 := None; h3_res9 := None |}
  else
    let la := Number lat in
    let lo := Number lon in
    if isNaN la || isNaN lo then {| h3_res7 := None; h3_res9 := None |}
    else {| h3_res7 := Some (latLngToCell la lo 7);
            h3_res9 := Some (latLngToCell la lo 9) |}.

Record nearby := { column : string; cells : list string }.

Definition buildNearbyParams (lat lon radiusKm : float) : nearby :=
  if PrimFloat.leb 2 radiusKm then
    let k := Math_min (Math_ceil (radiusKm / 1.406)) 10 in
    let center := latLngToCell lat lon 7 in
    {| column := "h3_res7"; cells := gridDisk center k |}
  else
    let k := Math_min (Math_ceil (radiusKm / 0.201)) 10 in
    let center := latLngToCell lat lon 9 in
    {| column := "h3_res9"; cells := gridDisk center k |}.

(** *** GET /locations *)

(** A bound parameter of the read query: a string, a number, or the
    string [`-${days} days`]. *)
Inductive param :=
| PStr (s : string)
| PNum (n : float)
| PDays (days : float).

Record spatial_meta := {
  query_center : float * float;
  radius_km : float;
  resolution_used : Z;
  cells_searched : Z;
}.

(** What the handler does up to the call of the database: it answers with
    an error, or prepares a query (whose rows are then returned, with the
    meta data if there is a spatial filter). *)
Inductive get_plan :=
| Rejected (r : Response)
| Prepared (query : string) (params : list param) (meta : option spatial_meta).

(** [url.searchParams.get(k)] is [null] for an absent parameter. *)
Definition days_of (searchParams : gmap string string) : float :=
  Math_min (Math_max (parseInt (default "7" (searchParams !! "days"))) 1) 365.

Definition limit_of (searchParams : gmap string string) : float :=
  Math_min (Math_max (parseInt (default "1000" (searchParams !! "limit"))) 1) 10000.

Definition radiusKm_of (searchParams : gmap string string) : float :=
  Math_min (Math_max (parseFloat (default "1" (searchParams !! "radius"))) 0.1) 50.

(** [if (s)] for a [string | null]. *)
Definition given (s : option string) : option string :=
  match s with
  | Some t => if String.eqb t "" then None else Some t
  | None => None
  end.

Definition placeholders (cells : list string) : string :=
  String.concat ", " (map (fun _ => "?") cells).

Definition handleGetLocations (searchParams : gmap string string) : get_plan :=
  let days := days_of searchParams in
  let limit := limit_of searchParams in
  let source := searchParams !! "source" in
  let after := searchParams !! "after" in
  let before := searchParams !! "before" in
  let nearLat := searchParams !! "near_lat" in
  let nearLon := searchParams !! "near_lon" in
  let spatial : Response + option (nearby * spatial_meta) :=
    match nearLat, nearLon with
    | Some nearLat, Some nearLon =>
        let lat := parseFloat nearLat in
        let lon := parseFloat nearLon in
        if isNaN lat || isNaN lon then
          inl (errorResponse "near_lat and near_lon must be valid numbers" 400)
        else
          let radiusKm := radiusKm_of searchParams in
          let spatialFilter := buildNearbyParams lat lon radiusKm in
          inr (Some (spatialFilter,
                     {| query_center := (lat, lon);
                        radius_km := radiusKm;
                        resolution_used :=
                          if String.eqb (column spatialFilter) "h3_res7" then 7 else 9;
                        cells_searched := len (cells spatialFilter) |}))
    | _, _ => inr None
    end in
  match spatial with
  | inl r => Rejected r
  | inr spatial =>
      let query := "SELECT * FROM locations WHERE 1=1" in
      let params : list param := [] in
      let '(query, params) :=
        match given after, spatial with
        | Some after, _ =>
            (query +:+ " AND " +:+ Sql.TS_UTC +:+ " >= ?", params ++ [PStr after])
        | None, None =>
            (query +:+ " AND " +:+ Sql.TS_UTC +:+ " >= datetime('now', ?)",
             params ++ [PDays days])
        | None, Some _ => (query, params)
        end%list in
      let '(query, params) :=
        match given before with
        | Some before =>
            (query +:+ " AND " +:+ Sql.TS_UTC +:+ " <= ?", params ++ [PStr before])
        | None => (query, params)
        end%list in
      let '(query, params) :=
        match given source with
        | Some source => (query +:+ " AND source = ?", params ++ [PStr source])
        | None => (query, params)
        end%list in
      let '(query, params) :=
        match spatial with
        | Some (spatialFilter, _) =>
            (query +:+ " AND " +:+ column spatialFilter +:+ " IN ("
               +:+ placeholders (cells spatialFilter) +:+ ")",
             params ++ map PStr (cells spatialFilter))
        | None => (query, params)
        end%list in
      let query := query +:+ " ORDER BY " +:+ Sql.TS_UTC +:+ " DESC LIMIT ?" in
      let params := (params ++ [PNum limit])%list in
      Prepared query params (snd <$> spatial)
  end.

(** *** GET /locations/latest *)

(** The query of [handleGetLatest]. *)
Definition handleGetLatest_query : string :=
  "SELECT * FROM locations ORDER BY " +:+ Sql.TS_UTC +:+ " DESC LIMIT 1".

(** *** POST /locations *)

(** [body.tst ? new Date(body.tst * 1000).toISOString()
             : new Date().toISOString()], [now] being the time of receipt
    in ISO form. *)
Definition timestamp_of (now : string) (tst : value) : M DB string :=
  if truthy tst then
    match Date_toISOString (Number tst * 1000) with
    | Some t => ret t
    | None => throw RangeError
    end
  else ret now.

Definition handlePostLocation (now : string) (json : value) : M DB Response :=
  match fields_of json with
  | None => throw TypeError
  | Some body =>
      if strict_eq_str (prop body "_type") "location" then
        timestamp <- timestamp_of now (prop body "tst") ;;
        let h3 := computeH3 (prop body "lat") (prop body "lon") in
        db_run (Insert
          ["timestamp"; "lat"; "lon"; "accuracy"; "altitude"; "speed"; "source";
           "h3_res7"; "h3_res9"]
          [VStr timestamp; prop body "lat"; prop body "lon";
           nullish (prop body "acc") VNull; nullish (prop body "alt") VNull;
           nullish (prop body "vel") VNull; VStr "owntracks";
           cell_value (h3_res7 h3); cell_value (h3_res9 h3)]) ;;;
        ret (jsonResponse (VArr []) 200)
      else if strict_eq_str (prop body "_type") "waypoint"
              && not_undefined (prop body "lat") && not_undefined (prop body "lon") then
        timestamp <- timestamp_of now (prop body "tst") ;;
        let h3 := computeH3 (prop body "lat") (prop body "lon") in
        db_run (Insert
          ["timestamp"; "lat"; "lon"; "accuracy"; "source"; "semantic_type";
           "h3_res7"; "h3_res9"]
          [VStr timestamp; prop body "lat"; prop body "lon";
           nullish (prop body "rad") VNull; VStr "owntracks:waypoint";
           nullish (prop body "desc") VNull;
           cell_value (h3_res7 h3); cell_value (h3_res9 h3)]) ;;;
        ret (jsonResponse (VArr []) 200)
      else if strict_eq_str (prop body "_type") "transition"
              && not_undefined (prop body "lat") && not_undefined (prop body "lon") then
        timestamp <- timestamp_of now (prop body "tst") ;;
        let h3 := computeH3 (prop body "lat") (prop body "lon") in
        db_run (Insert
          ["timestamp"; "lat"; "lon"; "accuracy"; "source"; "semantic_type";
           "activity_type"; "h3_res7"; "h3_res9"]
          [VStr timestamp; prop body "lat"; prop body "lon";
           nullish (prop body "acc") VNull; VStr "owntracks:transition";
           nullish (prop body "desc") VNull; nullish (prop body "event") VNull;
           cell_value (h3_res7 h3); cell_value (h3_res9 h3)]) ;;;
        ret (jsonResponse (VArr []) 200)
      else if truthy (prop body "_type") then
        ret (jsonResponse (VArr []) 200)
      else if not_undefined (prop body "lat") && not_undefined (prop body "lon") then
        let timestamp := nullish (prop body "timestamp") (VStr now) in
        let h3 := computeH3 (prop body "lat") (prop body "lon") in
        db_run (Insert
          ["timestamp"; "lat"; "lon"; "accuracy"; "source"; "place_id";
           "semantic_type"; "activity_type"; "altitude"; "speed"; "h3_res7"; "h3_res9"]
          [timestamp; prop body "lat"; prop body "lon";
           nullish (prop body "accuracy") VNull; nullish (prop body "source") (VStr "manual");
           nullish (prop body "place_id") VNull; nullish (prop body "semantic_type") VNull;
           nullish (prop body "activity_type") VNull; nullish (prop body "altitude") VNull;
           nullish (prop body "speed") VNull;
           cell_value (h3_res7 h3); cell_value (h3_res9 h3)]) ;;;
        ret (jsonResponse (obj [("status", VStr "ok")]) 201)
      else ret (errorResponse "Invalid payload: lat and lon required" 400)
  end.

(** *** POST /locations/batch *)

Definition Array_isArray (v : value) : bool :=
  match v with VArr _ => true | _ => false end.

Definition elements (v : value) : list value :=
  match v with VArr xs => xs | _ => [] end.

(** The statement [chunk.map] builds for one record. *)
Definition import_record (loc : record) : stmt :=
  let h3 := computeH3 (prop loc "lat") (prop loc "lon") in
  Insert
    ["timestamp"; "lat"; "lon"; "accuracy"; "source"; "place_id";
     "semantic_type"; "activity_type"; "altitude"; "speed"; "h3_res7"; "h3_res9"]
    [nullish (prop loc "timestamp") VNull; nullish (prop loc "lat") VNull;
     nullish (prop loc "lon") VNull; nullish (prop loc "accuracy") VNull;
     nullish (prop loc "source") VNull; nullish (prop loc "place_id") VNull;
     nullish (prop loc "semantic_type") VNull; nullish (prop loc "activity_type") VNull;
     nullish (prop loc "altitude") VNull; nullish (prop loc "speed") VNull;
     cell_value (h3_res7 h3); cell_value (h3_res9 h3)].

(** The same for an element of the array; [None] is the TypeError of
    reading [loc.lat] off [null]. *)
Definition import_stmt (loc : value) : option stmt :=
  import_record <$> fields_of loc.

(** The counters [imported] and [errors]. *)
Definition import_page (i : nat) (chunk : list value) (st : Z * Z) : M DB (Z * Z) :=
  let '(imported, errors) := st in
  match mapM import_stmt chunk with
  | None => throw TypeError
  | Some stmts =>
      try_catch
        (db_batch stmts ;;; ret (imported + len chunk, errors))
        (fun e => ret (imported, errors + len chunk))
  end.

Definition handleBatchImport (json : value) : M DB Response :=
  match fields_of json with
  | None => throw TypeError
  | Some body =>
      let locations := prop body "locations" in
      if negb (truthy locations) || negb (Array_isArray locations) then
        ret (errorResponse "Expected { locations: [...] }" 400)
      else
        st <- for_chunks (elements locations) import_page 0%nat (0, 0) ;;
        ret (jsonResponse
               (obj [("status", VStr "ok"); ("imported", num (fst st));
                     ("errors", num (snd st)); ("total", num (len (elements locations)))])
               200)
  end.

(** *** POST /locations/backfill-h3 *)

Definition backfill_stmt (row : coord_row) : stmt :=
  let h3 := computeH3 (row_lat row) (row_lon row) in
  UpdateH3 (cell_value (h3_res7 h3)) (cell_value (h3_res9 h3)) (row_id row).

Definition backfill_page (i : nat) (chunk : list coord_row) (updated : Z) : M DB Z :=
  db_batch (map backfill_stmt chunk) ;;;
  ret (updated + len chunk).

Definition handleBackfillH3 : M DB Response :=
  rows <- db_select_unindexed 1000 ;;
  if len rows =? 0 then
    total <- db_count_all ;;
    ret (jsonResponse
           (obj [("status", VStr "complete"); ("updated", num 0); ("remaining", num 0);
                 ("total_records", num total)])
           200)
  else
    updated <- for_chunks rows backfill_page 0%nat 0 ;;
    remaining <- db_count_unindexed ;;
    ret (jsonResponse
           (obj [("status", VStr (if 0 <? remaining then "in_progress" else "complete"));
                 ("updated", num updated); ("remaining", num remaining)])
           200).

End Handlers.

End Worker.

(* ===================================================================== *)
(** ** The locations table *)
(* ===================================================================== *)

(** An executable model of the D1 table of [migrations/0001] and [0002]:
    [timestamp], [lat] and [lon] are NOT NULL, the other data columns and
    the two index columns are nullable, [id] is assigned by the table.
    The table is not STRICT: a text that is not a number stays a text in a
    REAL column. ([created_at] is filled by the database and never read by
    a handler; it is left out.) *)

Module Table.
Import JS.

Record location := {
  id : Z;
  timestamp : value;
  lat : value;
  lon : value;
  accuracy : value;
  source : value;
  place_id : value;
  semantic_type : value;
  activity_type : value;
  altitude : value;
  speed : value;
  h3_res7 : value;
  h3_res9 : value;
}.

Record table := { rows : list location; next_id : Z }.

Definition empty : table := {| rows := []; next_id := 1 |}.

(** What D1 stores for a bound JavaScript value: [undefined], arrays and
    objects are refused, a boolean is stored as 1 or 0, NaN as NULL. *)
Definition to_sql (v : value) : option value :=
  match v with
  | VUndefined => None
  | VNull => Some VNull
  | VBool b => Some (VNum (if b then 1 else 0))
  | VNum n => Some (if PrimFloat.is_nan n then VNull else VNum n)
  | VStr s => Some (VStr s)
  | VArr _ | VObj _ => None
  end.

Definition is_null (v : value) : bool :=
  match v with VNull => true | _ => false end.

Fixpoint column_value (c : string) (columns : list string) (vals : list value) : value :=
  match columns, vals with
  | c' :: columns', v :: vals' =>
      if String.eqb c c' then v else column_value c columns' vals'
  | _, _ => VNull
  end.

Definition insert (columns : list string) (binds : list value) (t : table) : option table :=
  match mapM to_sql binds with
  | Some vals =>
      if negb (length columns =? length vals)%nat then None
      else
        let col c := column_value c columns vals in
        if is_null (col "timestamp") || is_null (col "lat") || is_null (col "lon") then None
        else
          Some {| rows := rows t ++
                    [{| id := next_id t;
                        timestamp := col "timestamp"; lat := col "lat"; lon := col "lon";
                        accuracy := col "accuracy"; source := col "source";
                        place_id := col "place_id"; semantic_type := col "semantic_type";
                        activity_type := col "activity_type"; altitude := col "altitude";
                        speed := col "speed";
                        h3_res7 := col "h3_res7"; h3_res9 := col "h3_res9" |}];
                  next_id := next_id t + 1 |}
  | None => None
  end.

Definition set_h3 (c7 c9 : value) (r : location) : location :=
  {| id := id r; timestamp := timestamp r; lat := lat r; lon := lon r;
     accuracy := accuracy r; source := source r; place_id := place_id r;
     semantic_type := semantic_type r; activity_type := activity_type r;
     altitude := altitude r; speed := speed r;
     h3_res7 := c7; h3_res9 := c9 |}.

Definition update_h3 (c7 c9 : value) (i : Z) (t : table) : option table :=
  match to_sql c7, to_sql c9 with
  | Some c7, Some c9 =>
      Some {| rows := map (fun r => if id r =? i then set_h3 c7 c9 r else r) (rows t);
              next_id := next_id t |}
  | _, _ => None
  end.

Definition run (s : Worker.stmt) (t : table) : option table :=
  match s with
  | Worker.Insert columns binds => insert columns binds t
  | Worker.UpdateH3 c7 c9 i => update_h3 c7 c9 i t
  end.

(** A batch is a transaction: all statements or none. *)
Fixpoint batch (ss : list Worker.stmt) (t : table) : option table :=
  match ss with
  | [] => Some t
  | s :: ss' => match run s t with Some t' => batch ss' t' | None => None end
  end.

(** [h3_res7 IS NULL AND lat IS NOT NULL AND lon IS NOT NULL]. *)
Definition unindexed (r : location) : bool :=
  is_null (h3_res7 r) && negb (is_null (lat r)) && negb (is_null (lon r)).

Definition coords (r : location) : Worker.coord_row :=
  {| Worker.row_id := id r; Worker.row_lat := lat r; Worker.row_lon := lon r |}.

(** The query has a LIMIT and no ORDER BY, so the database may return any
    [limit] of the rows that qualify; the table returns the first ones. *)
Definition select_unindexed (limit : Z) (t : table) : list Worker.coord_row :=
  take (Z.to_nat limit) (map coords (filter (fun r => unindexed r = true) (rows t))).

Definition count_unindexed (t : table) : Z :=
  Worker.len (filter (fun r => unindexed r = true) (rows t)).

Definition count_all (t : table) : Z := Worker.len (rows t).

#[export] Instance table_D1 : Worker.D1 table := {|
  Worker.d1_run := run;
  Worker.d1_batch := batch;
  Worker.d1_select_unindexed := select_unindexed;
  Worker.d1_count_unindexed := count_unindexed;
  Worker.d1_count_all := count_all;
|}.




(** What the backfill's UPDATE for the selected row [r] does to a row
    [x] of the table, what the UPDATEs for a list of selected rows do to
    it, and what they do to the table. *)
Definition reindex_row {grid : Worker.HexGrid} (r : Worker.coord_row) (x : location)
    : location :=
  let h3 := Worker.computeH3 (Worker.row_lat r) (Worker.row_lon r) in
  if id x =? Worker.row_id r
  then set_h3 (Worker.cell_value (Worker.h3_res7 h3)) (Worker.cell_value (Worker.h3_res9 h3)) x
  else x.

Definition rewritten {grid : Worker.HexGrid} (sel : list Worker.coord_row) (x : location)
    : location :=
  fold_left (fun x r => reindex_row r x) sel x.

Definition reindex {grid : Worker.HexGrid} (sel : list Worker.coord_row) (t : table) : table :=
  {| rows := map (rewritten sel) (rows t); next_id := next_id t |}.


(** Repeated invocation of the backfill on the table, with the response
    of each call. *)
Fixpoint repeat_backfill {grid : Worker.HexGrid} (k : nat) (w : Worker.world Table.table)
    : list (Worker.outcome Worker.Response) * Worker.world Table.table :=
  match k with
  | O => ([], w)
  | S k' =>
      let '(r, w') := Worker.handleBackfillH3 w in
      let '(rs, w'') := repeat_backfill k' w' in
      (r :: rs, w'')
  end.

End Table.

(** A grid with one cell per resolution, to run the handlers on examples;
    the theorems hold for every grid. *)
Definition one_cell_grid : Worker.HexGrid := {|
  Worker.latLngToCell := fun _ _ res => if res =? 7 then "87" else "89";
  Worker.gridDisk := fun c _ => [c];
|}.

(* ===================================================================== *)
(** ** The specification's side *)
(* ===================================================================== *)

(** Definitions that follow the words of the specification, to compare
    the handlers with. *)

Module Spec.
Import JS Worker.

(** Resolution 7 when radiusKm >= 2, else resolution 9. *)
Definition policy_resolution (radiusKm : float) : Z :=
  if PrimFloat.leb 2 radiusKm then 7 else 9.

(** Average cell edge: 1.406 km at resolution 7, 0.201 km at resolution 9. *)
Definition average_edge (resolution : Z) : float :=
  if resolution =? 7 then 1.406%float else 0.201%float.

(** k = ceil(radiusKm / averageEdgeForResolution), at most 10. *)
Definition policy_rings (radiusKm : float) : float :=
  Math_min (Math_ceil (radiusKm / average_edge (policy_resolution radiusKm))) 10.

Definition column_of (resolution : Z) : string :=
  if resolution =? 7 then "h3_res7" else "h3_res9".

(** A number within [lo, hi]. *)
Definition within (lo hi x : float) : bool :=
  PrimFloat.leb lo x && PrimFloat.leb x hi.

(** The predicates of the read query. Those on the time of a record
    compare the normalised timestamp, and so does the ordering. *)
Definition select_all : string := "SELECT * FROM locations WHERE 1=1".
Definition time_after : string := " AND " +:+ Sql.TS_UTC +:+ " >= ?".
Definition time_window : string := " AND " +:+ Sql.TS_UTC +:+ " >= datetime('now', ?)".
Definition time_before : string := " AND " +:+ Sql.TS_UTC +:+ " <= ?".
Definition source_is : string := " AND source = ?".
Definition cell_in (column : string) (cells : list string) : string :=
  " AND " +:+ column +:+ " IN (" +:+ placeholders cells +:+ ")".
Definition newest_first : string := " ORDER BY " +:+ Sql.TS_UTC +:+ " DESC LIMIT ?".

(** The lower time bound: the [after] parameter when given; otherwise
    the default window of [days], unless there is a spatial filter. *)
Definition lower_bound (after : option string) (spatial : bool) : string :=
  match after with
  | Some _ => time_after
  | None => if spatial then "" else time_window
  end.

Definition upper_bound (before : option string) : string :=
  match before with Some _ => time_before | None => "" end.

Definition source_filter (source : option string) : string :=
  match source with Some _ => source_is | None => "" end.

Definition spatial_filter (near : option nearby) : string :=
  match near with Some f => cell_in (column f) (cells f) | None => "" end.

Definition query_of (after before source : option string) (near : option nearby) : string :=
  ((((select_all +:+ lower_bound after (bool_decide (is_Some near)))
       +:+ upper_bound before) +:+ source_filter source) +:+ spatial_filter near)
  +:+ newest_first.

(** The values bound to the placeholders of [query_of], in order. *)
Definition params_of (days limit : float) (after before source : option string)
    (near : option nearby) : list param :=
  (match after, near with
   | Some a, _ => [PStr a]
   | None, None => [PDays days]
   | None, Some _ => []
   end
   ++ match before with Some b => [PStr b] | None => [] end
   ++ match source with Some s => [PStr s] | None => [] end
   ++ match near with Some f => map PStr (cells f) | None => [] end
   ++ [PNum limit])%list.

(** The spatial filter of a request whose centre is given. *)
Definition near_of {grid : HexGrid} (searchParams : gmap string string) : option nearby :=
  match searchParams !! "near_lat", searchParams !! "near_lon" with
  | Some a, Some b =>
      Some (buildNearbyParams (parseFloat a) (parseFloat b) (radiusKm_of searchParams))
  | _, _ => None
  end.

(** Fixed-size pages of a sequence, the last one possibly shorter. *)
Equations? pages {A : Type} (xs : list A) : list (list A) by wf (length xs) lt :=
  pages [] := [];
  pages (x :: xs) := take batchSize (x :: xs) :: pages (drop batchSize (x :: xs)).
Proof. unfold batchSize. simpl. rewrite length_drop. lia. Qed.

Section Pages.
Context {DB : Type} {d1 : D1 DB}.

(** A loop body run on each page in turn, stopping at the first throw. *)
Fixpoint run_pages {A St : Type} (body : nat -> list A -> St -> M DB St) (i : nat)
    (ps : list (list A)) (st : St) (w : world DB) : outcome St * world DB :=
  match ps with
  | [] => (Returned st, w)
  | p :: ps' =>
      match body i p st w with
      | (Returned st', w') => run_pages body (i + batchSize) ps' st' w'
      | (Thrown e, w') => (Thrown e, w')
      end
  end.


End Pages.



(** A statement whose two index values come from one call of [computeH3],
    on the coordinates it writes (for an INSERT) or on the coordinates of
    the row it rewrites (for the UPDATE). *)
Definition indexed_together {grid : HexGrid} (s : stmt) : Prop :=
  match s with
  | Insert columns binds =>
      let col c := Table.column_value c columns binds in
      let h3 := computeH3 (col "lat") (col "lon") in
      col "h3_res7" = cell_value (h3_res7 h3) /\ col "h3_res9" = cell_value (h3_res9 h3)
  | UpdateH3 c7 c9 _ =>
      exists lat lon,
        let h3 := computeH3 lat lon in
        c7 = cell_value (h3_res7 h3) /\ c9 = cell_value (h3_res9 h3)
  end.






End Spec.

(* ===================================================================== *)
(** ** Example tables *)
(* ===================================================================== *)

Import JS Worker.
#[local] Existing Instance Table.table_D1.

(** Two rows written before the index columns existed. *)
Definition two_old_rows : Table.table :=
  let row i la lo :=
    {| Table.id := i; Table.timestamp := VStr "2023-05-01T08:00:00+0900";
       Table.lat := VNum la; Table.lon := VNum lo; Table.accuracy := VNull;
       Table.source := VStr "visit"; Table.place_id := VNull; Table.semantic_type := VNull;
       Table.activity_type := VNull; Table.altitude := VNull; Table.speed := VNull;
       Table.h3_res7 := VNull; Table.h3_res9 := VNull |} in
  {| Table.rows := [row 1 35.6812%float 139.7671%float; row 2 34.7025%float 135.4959%float];
     Table.next_id := 3 |}.

(** The table after importing one record whose coordinates are texts that
    are not numbers: the record is stored with both index columns null. *)
Definition text_coordinates_table : Table.table :=
  db (handleBatchImport (grid := one_cell_grid)
        (obj [("locations",
               VArr [obj [("timestamp", VStr "2024-01-01T12:00:00Z");
                          ("lat", VStr "abc"); ("lon", VStr "def")]])])
        (World Table.empty [])).2.

(* ===================================================================== *)
(** ** Authentication *)
(* ===================================================================== *)

(** The string methods and the base64 decoding that [authenticate] uses. *)

Module Text.

Abbreviation chars := String.list_ascii_of_string.
Abbreviation text := String.string_of_list_ascii.

(** [s.startsWith(p)]. *)
Definition startsWith (s p : string) : bool :=
  match JS.starts_with (chars p) (chars s) with Some _ => true | None => false end.

(** [s.replace(p, r)] for a string pattern: the first occurrence only. *)
Fixpoint replace_chars (p r s : list ascii) : list ascii :=
  match JS.starts_with p s with
  | Some rest => (r ++ rest)%list
  | None => match s with
            | c :: s' => c :: replace_chars p r s'
            | [] => []
            end
  end.

Definition replace (s p r : string) : string :=
  text (replace_chars (chars p) (chars r) (chars s)).

(** [s.trim()]: the white space among the characters up to 255 is tab to
    carriage return, the space and the no-break space. *)
Definition is_space (c : ascii) : bool :=
  JS.is_ws c || (N_of_ascii c =? 160)%N.

Fixpoint drop_space (s : list ascii) : list ascii :=
  match s with
  | c :: r => if is_space c then drop_space r else s
  | [] => []
  end.

Definition trim (s : string) : string :=
  text (rev (drop_space (rev (drop_space (chars s))))).

(** [s.split(sep)] for a separator of one character. *)
Fixpoint split_chars (sep : ascii) (s : list ascii) : list (list ascii) :=
  match s with
  | [] => [[]]
  | c :: s' =>
      if Ascii.eqb c sep then [] :: split_chars sep s'
      else match split_chars sep s' with
           | piece :: pieces => (c :: piece) :: pieces
           | [] => [[c]]
           end
  end.

Definition split (s : string) (sep : ascii) : list string :=
  map text (split_chars sep (chars s)).

(** *** base64 *)

(** The character of a sextet and the sextet of a character, in the
    alphabet [A-Z a-z 0-9 + /]. *)
Definition b64_char (n : N) : ascii :=
  ascii_of_N (if n <? 26 then n + 65
              else if n <? 52 then n + 71
              else if n <? 62 then n - 4
              else if n =? 62 then 43 else 47)%N.

Definition b64_index (c : ascii) : option N :=
  let n := N_of_ascii c in
  (if (65 <=? n) && (n <=? 90) then Some (n - 65)
   else if (97 <=? n) && (n <=? 122) then Some (n - 71)
   else if (48 <=? n) && (n <=? 57) then Some (n + 4)
   else if n =? 43 then Some 62
   else if n =? 47 then Some 63
   else None)%N.

Definition byte (n : N) : ascii := ascii_of_N (n mod 256).

(** Four sextets make three bytes; a rest of three sextets makes two
    bytes and a rest of two makes one, the bits left over being dropped. *)
Fixpoint decode_sextets (l : list N) : list ascii :=
  match l with
  | a :: b :: c :: d :: r =>
      let n := (((a * 64 + b) * 64 + c) * 64 + d)%N in
      byte (n / 65536) :: byte (n / 256) :: byte n :: decode_sextets r
  | [a; b; c] =>
      let n := (((a * 64 + b) * 64 + c) / 4)%N in
      [byte (n / 256); byte n]
  | [a; b] => [byte ((a * 64 + b) / 16)]
  | _ => []
  end.

(** The white space that base64 decoding skips: tab, line feed, form
    feed, carriage return and space. *)
Definition is_html_space (c : ascii) : bool :=
  let n := N_of_ascii c in
  ((n =? 9) || (n =? 10) || (n =? 12) || (n =? 13) || (n =? 32))%N.

(** One or two [=] at the end are removed. *)
Definition strip_padding (l : list ascii) : list ascii :=
  match rev l with
  | c1 :: c2 :: r =>
      if JS.is_char c1 "=" then
        if JS.is_char c2 "=" then rev r else rev (c2 :: r)
      else l
  | [c1] => if JS.is_char c1 "=" then [] else l
  | [] => l
  end.

(** [atob(data)], the forgiving base64 decoding of the HTML standard;
    [None] is the InvalidCharacterError it throws. *)
Definition atob (data : string) : option string :=
  let l := List.filter (fun c => negb (is_html_space c)) (chars data) in
  let l := if (length l mod 4 =? 0)%nat then strip_padding l else l in
  if (length l mod 4 =? 1)%nat then None
  else text <$> (decode_sextets <$> mapM b64_index l).

(** Three bytes make four sextets; a rest of two bytes makes three
    sextets and a rest of one makes two, filled up with zero bits. *)
Fixpoint encode_sextets (l : list ascii) : list N :=
  match l with
  | a :: b :: c :: r =>
      let n := ((N_of_ascii a * 256 + N_of_ascii b) * 256 + N_of_ascii c)%N in
      (n / 262144 :: (n / 4096) mod 64 :: (n / 64) mod 64 :: n mod 64
         :: encode_sextets r)%N
  | [a; b] =>
      let n := ((N_of_ascii a * 256 + N_of_ascii b) * 4)%N in
      [n / 4096; (n / 64) mod 64; n mod 64]%N
  | [a] =>
      let n := (N_of_ascii a * 16)%N in
      [n / 64; n mod 64]%N
  | [] => []
  end.

(** [btoa(data)]: the sextets of the bytes, padded with [=] to a multiple
    of four characters. *)
Definition btoa (data : string) : string :=
  let l := chars data in
  text (map b64_char (encode_sextets l)
        ++ match (length l mod 3)%nat with
           | 1%nat => chars "=="
           | 2%nat => chars "="
           | _ => []
           end)%list.

End Text.

Module Auth.

(** [authenticate(request, env)], from the Authorization header of the
    request ([null] when there is none) and [env.API_TOKEN]. *)
Definition authenticate (auth : option string) (API_TOKEN : string) : bool :=
  match auth with
  | None => false
  | Some auth =>
      if String.eqb auth "" then false
      else if Text.startsWith auth "Bearer " then
        let token := Text.trim (Text.replace auth "Bearer " "") in
        String.eqb token API_TOKEN
      else if Text.startsWith auth "Basic " then
        match Text.atob (Text.trim (Text.replace auth "Basic " "")) with
        | Some decoded =>
            match Text.split decoded ":" with
            | _ :: password :: _ => String.eqb password API_TOKEN
            | _ => false
            end
        | None => false
        end
      else false
  end.

End Auth.

(* ===================================================================== *)
(** ** The router and the read handlers *)
(* ===================================================================== *)

Module Edge.
Import JS Worker.

(** The reads of a prepared statement: [.first()] gives the first row or
    [null], [.all()] gives the rows; [None] is a rejected promise. *)
Class D1Read (DB : Type) := {
  d1_first : string -> list param -> DB -> option (option record);
  d1_all : string -> list param -> DB -> option (list record);
}.

(** A response with its headers; [payload] is [None] for a null body. *)
Record http_response := {
  code : Z;
  headers : list (string * string);
  payload : option value;
}.

(** The response that [jsonResponse] builds, headers included. *)
Definition json_http (r : Response) : http_response :=
  {| code := status r;
     headers := [("Content-Type", "application/json"); ("Access-Control-Allow-Origin", "*")];
     payload := Some (body r) |}.

Definition unauthorized : http_response :=
  {| code := 401;
     headers := [("Content-Type", "application/json")];
     payload := Some (obj [("error", VStr "Unauthorized")]) |}.

(** A request: its method, the path and the query parameters of its URL,
    its headers (under their lower-case names), the text of its body and
    what [request.json()] makes of it ([None] when the body is not JSON). *)
Record request := {
  method : string;
  pathname : string;
  searchParams : gmap string string;
  request_headers : gmap string string;
  body_text : string;
  body_json : option value;
}.

Definition handleCors (req : request) : option http_response :=
  if String.eqb (method req) "OPTIONS" then
    Some {| code := 200;
            headers := [("Access-Control-Allow-Origin", "*");
                        ("Access-Control-Allow-Methods", "GET, POST, OPTIONS");
                        ("Access-Control-Allow-Headers", "Content-Type, Authorization");
                        ("Access-Control-Max-Age", "86400")];
            payload := None |}
  else None.

(** How a call of the worker ends: with a response, with an exception of a
    handler, or with the SyntaxError of [request.json()]. *)
Inductive ending :=
| Responded (r : http_response)
| Failed (e : exn)
| NotJson.

Section Handlers.
Context {grid : HexGrid} {DB : Type} {d1 : D1 DB} {d1r : D1Read DB}.

Definition db_first (sql : string) (params : list param) : M DB (option record) :=
  fun w => match d1_first sql params (db w) with
           | Some row => (Returned row, w)
           | None => (Thrown D1_ERROR, w)
           end.

Definition db_all (sql : string) (params : list param) : M DB (list record) :=
  fun w => match d1_all sql params (db w) with
           | Some rows => (Returned rows, w)
           | None => (Thrown D1_ERROR, w)
           end.

Definition handleHealth : M DB Response :=
  try_catch
    (bind (db_first "SELECT COUNT(*) as count FROM locations" [])
       (fun result =>
          ret (jsonResponse
                 (obj [("status", VStr "ok"); ("service", VStr "location-sync");
                       ("records",
                        nullish (match result with
                                 | Some row => prop row "count"
                                 | None => VUndefined
                                 end) (VNum 0))]) 200)))
    (fun _ =>
       ret (jsonResponse
              (obj [("status", VStr "ok"); ("service", VStr "location-sync");
                    ("db", VStr "not initialized")]) 200)).

Definition handleGetLatest : M DB Response :=
  bind (db_first handleGetLatest_query [])
    (fun result =>
       match result with
       | None => ret (errorResponse "No location data found" 404)
       | Some row => ret (jsonResponse (obj [("location", VObj row)]) 200)
       end).

Definition meta_value (m : spatial_meta) : value :=
  obj [("query_center", obj [("lat", VNum (fst (query_center m)));
                             ("lon", VNum (snd (query_center m)))]);
       ("radius_km", VNum (radius_km m));
       ("resolution_used", num (resolution_used m));
       ("cells_searched", num (cells_searched m))].

(** [handleGetLocations] with its last step: the query is run and its rows
    are returned with their number, and with the meta data of a spatial
    search. *)
Definition getLocations (searchParams : gmap string string) : M DB Response :=
  match handleGetLocations searchParams with
  | Rejected r => ret r
  | Prepared query params meta =>
      bind (db_all query params)
        (fun results =>
           ret (jsonResponse
                  (obj ([("count", num (len results));
                         ("locations", VArr (map VObj results))]
                        ++ match meta with
                           | Some m => [("meta", meta_value m)]
                           | None => []
                           end)) 200))
  end.

(** The debug route: the request's headers and the first 2000 characters
    of its body, sent back. *)
Definition debug_echo (req : request) : Response :=
  jsonResponse
    (obj [("headers", VObj (VStr <$> request_headers req));
          ("body", VStr (String.substring 0 2000 (body_text req)))]) 200.

(** A handler's result as the result of the call. *)
Definition respond (m : M DB Response) : world DB -> ending * world DB :=
  fun w => match m w with
           | (Returned r, w') => (Responded (json_http r), w')
           | (Thrown e, w') => (Failed e, w')
           end.

(** A handler that reads the body as JSON first. *)
Definition with_json (req : request) (h : value -> M DB Response)
    : world DB -> ending * world DB :=
  fun w => match body_json req with
           | Some json => respond (h json) w
           | None => (NotJson, w)
           end.

(** [fetch(request, env)], [now] being the time of receipt. *)
Definition fetch (API_TOKEN now : string) (req : request) : world DB -> ending * world DB :=
  fun w =>
    match handleCors req with
    | Some r => (Responded r, w)
    | None =>
        let path := pathname req in
        let method := method req in
        if String.eqb path "/health" && String.eqb method "GET" then
          respond handleHealth w
        else if String.eqb path "/debug" && String.eqb method "POST" then
          (Responded (json_http (debug_echo req)), w)
        else if negb (Auth.authenticate (request_headers req !! "authorization") API_TOKEN) then
          (Responded unauthorized, w)
        else if String.eqb path "/locations" && String.eqb method "GET" then
          respond (getLocations (searchParams req)) w
        else if String.eqb path "/locations/latest" && String.eqb method "GET" then
          respond handleGetLatest w
        else if String.eqb path "/locations" && String.eqb method "POST" then
          with_json req (handlePostLocation now) w
        else if String.eqb path "/locations/batch" && String.eqb method "POST" then
          with_json req handleBatchImport w
        else if String.eqb path "/locations/backfill-h3" && String.eqb method "POST" then
          respond handleBackfillH3 w
        else (Responded (json_http (errorResponse "Not found" 404)), w)
    end.

End Handlers.

End Edge.

(* ===================================================================== *)
(** ** Notions and examples for the properties of the handlers *)
(* ===================================================================== *)

(** The number of [?] placeholders in the text of a query. *)
Definition placeholders_in (query : string) : nat :=
  count_occ Ascii.ascii_dec (Sql.chars query) "?"%char.

(** Two rows that agree on every column but the two index columns. *)
Definition same_data (x y : Table.location) : Prop :=
  Table.set_h3 VNull VNull x = Table.set_h3 VNull VNull y.

(** The rows of a table have distinct ids ([id] is the primary key). *)
Definition distinct_ids (t : Table.table) : Prop :=
  NoDup (map Table.id (Table.rows t)).

(** The table behind a database that takes no write: every statement and
    every batch is rejected. *)
Definition rejecting_writes : D1 Table.table := {|
  d1_run := fun _ _ => None;
  d1_batch := fun _ _ => None;
  d1_select_unindexed := Table.select_unindexed;
  d1_count_unindexed := Table.count_unindexed;
  d1_count_all := Table.count_all;
|}.

(** A reader that gives the same answers to every query, to run the
    router on examples; the theorems hold for every reader. *)
Definition answering {DB : Type} (first : option (option record))
    (all : option (list record)) : Edge.D1Read DB := {|
  Edge.d1_first := fun _ _ _ => first;
  Edge.d1_all := fun _ _ _ => all;
|}.

(** A request with no query string and no body. *)
Definition plain_request (method pathname : string) (headers : list (string * string))
    : Edge.request :=
  {| Edge.method := method; Edge.pathname := pathname; Edge.searchParams := ∅;
     Edge.request_headers := list_to_map headers;
     Edge.body_text := ""; Edge.body_json := None |}.

(* ===================================================================== *)
(** ** Properties *)
(* ===================================================================== *)


(** *** Order on doubles *)

Section FloatOrder.

Lemma SFcompare_swap x y :
  SFcompare y x = option_map CompOpp (SFcompare x y).
Proof.
  destruct x as [sx|sx| |sx mx ex], y as [sy|sy| |sy my ey]; simpl;
    try reflexivity; try (destruct sx; reflexivity); try (destruct sy; reflexivity);
    try (destruct sx, sy; reflexivity).
  destruct sx, sy; simpl; try reflexivity;
    rewrite (Z.compare_antisym ex ey);
    destruct (ex ?= ey); simpl; try reflexivity;
    change (PosDef.Pos.compare_cont Eq my mx) with (Pos.compare_cont (CompOpp Eq) my mx);
    rewrite <- (Pos.compare_cont_antisym mx my Eq);
    change (PosDef.Pos.compare_cont Eq mx my) with (Pos.compare_cont Eq mx my);
    destruct (Pos.compare_cont Eq mx my); reflexivity.
Qed.

Lemma is_nan_false_compare x y :
  PrimFloat.is_nan x = false -> PrimFloat.is_nan y = false ->
  exists c, SFcompare (Prim2SF x) (Prim2SF y) = Some c.
Proof.
  unfold PrimFloat.is_nan. rewrite !FloatAxioms.eqb_spec. unfold SFeqb.
  intros Hx Hy.
  destruct (Prim2SF x) as [sx|sx| |sx mx ex], (Prim2SF y) as [sy|sy| |sy my ey];
    simpl in *; try discriminate; eauto.
Qed.

Lemma ltb_leb x y : PrimFloat.ltb x y = true -> PrimFloat.leb x y = true.
Proof.
  rewrite FloatAxioms.ltb_spec, FloatAxioms.leb_spec. unfold SFltb, SFleb.
  destruct (SFcompare _ _) as [[]|]; congruence.
Qed.

Lemma not_ltb_leb x y :
  PrimFloat.is_nan x = false -> PrimFloat.is_nan y = false ->
  PrimFloat.ltb y x = false -> PrimFloat.leb x y = true.
Proof.
  intros Hx Hy. rewrite FloatAxioms.ltb_spec, FloatAxioms.leb_spec. unfold SFltb, SFleb.
  rewrite (SFcompare_swap (Prim2SF x) (Prim2SF y)).
  destruct (is_nan_false_compare x y Hx Hy) as [c ->]. simpl.
  destruct c; simpl; congruence.
Qed.

Lemma leb_refl x : PrimFloat.is_nan x = false -> PrimFloat.leb x x = true.
Proof.
  intros Hx. apply not_ltb_leb; auto.
  rewrite FloatAxioms.ltb_spec. unfold SFltb.
  destruct (is_nan_false_compare x x Hx Hx) as [c Hc].
  pose proof (SFcompare_swap (Prim2SF x) (Prim2SF x)) as Hs. rewrite Hc in Hs. simpl in Hs.
  rewrite Hc. destruct c; simpl in *; congruence.
Qed.

Lemma Math_min_spec x y :
  PrimFloat.is_nan x = false -> PrimFloat.is_nan y = false ->
  PrimFloat.is_nan (Math_min x y) = false /\
  PrimFloat.leb (Math_min x y) x = true /\ PrimFloat.leb (Math_min x y) y = true.
Proof.
  intros Hx Hy. unfold Math_min. rewrite Hx, Hy. simpl.
  destruct (PrimFloat.ltb x y) eqn:Hxy.
  { auto using leb_refl, ltb_leb. }
  destruct (PrimFloat.ltb y x) eqn:Hyx.
  { auto using leb_refl, ltb_leb. }
  destruct (is_neg_zero x); auto using leb_refl, not_ltb_leb.
Qed.

Lemma Math_max_spec x y :
  PrimFloat.is_nan x = false -> PrimFloat.is_nan y = false ->
  PrimFloat.is_nan (Math_max x y) = false /\
  PrimFloat.leb x (Math_max x y) = true /\ PrimFloat.leb y (Math_max x y) = true.
Proof.
  intros Hx Hy. unfold Math_max. rewrite Hx, Hy. simpl.
  destruct (PrimFloat.ltb x y) eqn:Hxy.
  { auto using leb_refl, ltb_leb. }
  destruct (PrimFloat.ltb y x) eqn:Hyx.
  { auto using leb_refl, ltb_leb. }
  destruct (is_neg_zero x); auto using leb_refl, not_ltb_leb.
Qed.

Lemma Math_min_nan x y :
  PrimFloat.is_nan (Math_min x y) = PrimFloat.is_nan x || PrimFloat.is_nan y.
Proof.
  destruct (PrimFloat.is_nan x) eqn:Hx; [unfold Math_min; rewrite Hx; reflexivity|].
  destruct (PrimFloat.is_nan y) eqn:Hy; [unfold Math_min; rewrite Hx, Hy; reflexivity|].
  apply Math_min_spec; auto.
Qed.

Lemma Math_max_nan x y :
  PrimFloat.is_nan (Math_max x y) = PrimFloat.is_nan x || PrimFloat.is_nan y.
Proof.
  destruct (PrimFloat.is_nan x) eqn:Hx; [unfold Math_max; rewrite Hx; reflexivity|].
  destruct (PrimFloat.is_nan y) eqn:Hy; [unfold Math_max; rewrite Hx, Hy; reflexivity|].
  apply Math_max_spec; auto.
Qed.

End FloatOrder.

(** *** Radius queries *)

Section Radius.
Context {grid : HexGrid}.

(** C4. The radius query picks resolution 7 exactly when radiusKm >= 2 and
    resolution 9 otherwise (so 2 gives 7 and 1.999 gives 9), and asks for
    the disk of ceil(radiusKm / average edge) rings around the centre
    cell, the edge being 1.406 at resolution 7 and 0.201 at resolution 9;
    the ring count never exceeds 10. *)
Theorem radius_policy (lat lon radiusKm : float) :
  let res := Spec.policy_resolution radiusKm in
  let k := Spec.policy_rings radiusKm in
  buildNearbyParams lat lon radiusKm
    = {| column := Spec.column_of res; cells := gridDisk (latLngToCell lat lon res) k |}
  /\ (res = 7 <-> PrimFloat.leb 2 radiusKm = true)
  /\ (res = 9 <-> PrimFloat.leb 2 radiusKm = false)
  /\ (res = 7 -> k = Math_min (Math_ceil (radiusKm / 1.406)) 10)
  /\ (res = 9 -> k = Math_min (Math_ceil (radiusKm / 0.201)) 10)
  /\ (PrimFloat.is_nan k = true \/ PrimFloat.leb k 10 = true)
  /\ Spec.policy_resolution 2 = 7
  /\ Spec.policy_resolution 1.999 = 9.
Proof.
  cbv zeta. unfold buildNearbyParams, Spec.policy_rings, Spec.policy_resolution.
  destruct (PrimFloat.leb 2 radiusKm) eqn:E; cbn [Spec.average_edge Z.eqb Pos.eqb Spec.column_of].
  - repeat split; try congruence; auto.
    destruct (PrimFloat.is_nan (Math_min (Math_ceil (radiusKm / 1.406)) 10)) eqn:N; auto.
    right. rewrite Math_min_nan in N. apply orb_false_elim in N as [N1 N2].
    now apply Math_min_spec.
  - repeat split; try congruence; auto.
    destruct (PrimFloat.is_nan (Math_min (Math_ceil (radiusKm / 0.201)) 10)) eqn:N; auto.
    right. rewrite Math_min_nan in N. apply orb_false_elim in N as [N1 N2].
    now apply Math_min_spec.
Qed.

End Radius.

(** *** Query parameters *)

(** A parameter that parses to a number is clamped into its range; one
    that does not stays NaN. *)
Lemma clamp_within (lo hi x : float) :
  PrimFloat.is_nan lo = false -> PrimFloat.is_nan hi = false ->
  PrimFloat.leb lo hi = true ->
  PrimFloat.is_nan (Math_min (Math_max x lo) hi) = PrimFloat.is_nan x /\
  (PrimFloat.is_nan x = false -> Spec.within lo hi (Math_min (Math_max x lo) hi) = true).
Proof.
  intros Hlo Hhi Hle. split.
  - rewrite Math_min_nan, Math_max_nan, Hlo, Hhi. now rewrite !orb_false_r.
  - intros Hx. unfold Spec.within.
    destruct (Math_max_spec x lo Hx Hlo) as (N1 & L1 & L2).
    destruct (Math_min_spec (Math_max x lo) hi N1 Hhi) as (N2 & L3 & L4).
    rewrite L4, andb_true_r.
    unfold Math_min. rewrite N1, Hhi. simpl.
    destruct (PrimFloat.ltb (Math_max x lo) hi); [exact L2|].
    destruct (PrimFloat.ltb hi (Math_max x lo)); [exact Hle|].
    destruct (is_neg_zero (Math_max x lo)); [exact L2 | exact Hle].
Qed.

Lemma query_parameters_in_range (searchParams : gmap string string) :
  (searchParams !! "days" = None -> days_of searchParams = 7%float) /\
  (searchParams !! "limit" = None -> limit_of searchParams = 1000%float) /\
  (searchParams !! "radius" = None -> radiusKm_of searchParams = 1%float) /\
  (forall s, searchParams !! "days" = Some s -> PrimFloat.is_nan (parseInt s) = false ->
     Spec.within 1 365 (days_of searchParams) = true) /\
  (forall s, searchParams !! "limit" = Some s -> PrimFloat.is_nan (parseInt s) = false ->
     Spec.within 1 10000 (limit_of searchParams) = true) /\
  (forall s, searchParams !! "radius" = Some s -> PrimFloat.is_nan (parseFloat s) = false ->
     Spec.within 0.1 50 (radiusKm_of searchParams) = true).
Proof.
  unfold days_of, limit_of, radiusKm_of.
  repeat split.
  - intros ->. reflexivity.
  - intros ->. reflexivity.
  - intros ->. reflexivity.
  - intros s -> Hs. simpl. now apply clamp_within.
  - intros s -> Hs. simpl. now apply clamp_within.
  - intros s -> Hs. simpl. now apply clamp_within.
Qed.

(** C6. A parameter that is supplied but is not a number is not brought
    into its range: [days=abc], [limit=abc] and [radius=abc] all give NaN,
    and the query is prepared with that NaN as its window and limit. *)
Theorem query_parameter_not_a_number :
  days_of {[ "days" := "abc" ]} = nan /\
  limit_of {[ "limit" := "abc" ]} = nan /\
  radiusKm_of {[ "radius" := "abc" ]} = nan /\
  Spec.within 1 365 (days_of {[ "days" := "abc" ]}) = false /\
  Spec.within 1 10000 (limit_of {[ "limit" := "abc" ]}) = false /\
  Spec.within 0.1 50 (radiusKm_of {[ "radius" := "abc" ]}) = false /\
  exists query,
    handleGetLocations (grid := one_cell_grid) (list_to_map [("days", "abc"); ("limit", "abc")])
    = Prepared query [PDays nan; PNum nan] None.
Proof.
  repeat split; try (vm_compute; reflexivity).
  eexists. vm_compute. reflexivity.
Qed.

(** *** Timestamp normalisation *)

Section Timestamps.
Import Sql.

Lemma text_app (a b : list ascii) : text (a ++ b) = text a +:+ text b.
Proof. induction a as [|c a IH]; simpl; [reflexivity | now rewrite IH]. Qed.

Lemma chars_length (s : string) : List.length (chars s) = String.length s.
Proof. induction s as [|c s IH]; simpl; [reflexivity | now rewrite IH]. Qed.

Lemma is_char_code (c : ascii) (d : ascii) :
  JS.is_char c (String d "") = (N_of_ascii c =? N_of_ascii d)%N.
Proof.
  unfold JS.is_char. destruct (Ascii.eqb_spec c d) as [->|Hne].
  - now rewrite N.eqb_refl.
  - symmetry. apply N.eqb_neq. intros E. apply Hne.
    rewrite <- (ascii_N_embedding c), <- (ascii_N_embedding d). now rewrite E.
Qed.

Lemma sign_set (c : ascii) :
  in_set c false [("-", "-"); ("+", "+")]%char = is_sign c.
Proof.
  unfold in_set, is_sign. rewrite !is_char_code.
  cbn [existsb]. unfold in_range. cbn [fst snd xorb].
  change (N_of_ascii "-") with 45%N. change (N_of_ascii "+") with 43%N.
  destruct (N.eqb_spec (N_of_ascii c) 43), (N.eqb_spec (N_of_ascii c) 45),
    (N.leb_spec 45 (N_of_ascii c)), (N.leb_spec (N_of_ascii c) 45),
    (N.leb_spec 43 (N_of_ascii c)), (N.leb_spec (N_of_ascii c) 43); simpl; try reflexivity; lia.
Qed.

Lemma digit_set (c : ascii) :
  in_set c false [("0", "9"); ("0", "0")]%char = is_digit c.
Proof.
  unfold in_set, is_digit. cbn [existsb]. unfold in_range. cbn [fst snd xorb].
  change (N_of_ascii "0") with 48%N. change (N_of_ascii "9") with 57%N.
  destruct (N.leb_spec 48 (N_of_ascii c)), (N.leb_spec (N_of_ascii c) 57),
    (N.leb_spec (N_of_ascii c) 48); simpl; try reflexivity; lia.
Qed.

Lemma pattern_atoms :
  parse_glob None (chars "*[+-][0-9][0-9][0-9][0-9]") = Some (Star :: offset_atoms).
Proof. reflexivity. Qed.

Lemma offset_atoms_spec (t : list ascii) :
  glob_atoms offset_atoms t = true <->
  exists sg d1 d2 d3 d4, t = [sg; d1; d2; d3; d4] /\
    is_sign sg && is_digit d1 && is_digit d2 && is_digit d3 && is_digit d4 = true.
Proof.
  unfold offset_atoms. split.
  - destruct t as [|sg [|d1 [|d2 [|d3 [|d4 [|x t]]]]]]; cbn [glob_atoms];
      rewrite ?andb_false_r; try discriminate.
    rewrite sign_set, !digit_set, andb_true_r, !andb_assoc. eauto 10.
  - intros (sg & d1 & d2 & d3 & d4 & -> & E). cbn [glob_atoms].
    now rewrite sign_set, !digit_set, andb_true_r, !andb_assoc.
Qed.

Lemma star_unfold (ps : list atom) (s : list ascii) :
  glob_atoms (Star :: ps) s
  = glob_atoms ps s || match s with [] => false | _ :: s' => glob_atoms (Star :: ps) s' end.
Proof. destruct s; reflexivity. Qed.

Lemma glob_offset_spec (s : list ascii) :
  glob_atoms (Star :: offset_atoms) s = true <-> compact_offset_at_end s.
Proof.
  split.
  - induction s as [|c s IH]; rewrite star_unfold; intros E; apply orb_true_iff in E as [E|E].
    + apply offset_atoms_spec in E as (sg & d1 & d2 & d3 & d4 & E & _). discriminate.
    + discriminate.
    + apply offset_atoms_spec in E as (sg & d1 & d2 & d3 & d4 & E & C).
      exists [], sg, d1, d2, d3, d4. auto.
    + destruct (IH E) as (pre & sg & d1 & d2 & d3 & d4 & -> & C).
      exists (c :: pre), sg, d1, d2, d3, d4. auto.
  - intros (pre & sg & d1 & d2 & d3 & d4 & -> & C).
    induction pre as [|c pre IH]; rewrite star_unfold; apply orb_true_iff.
    + left. apply offset_atoms_spec. eauto 10.
    + right. exact IH.
Qed.

Lemma ends_in_compact_offset_spec (s : list ascii) :
  ends_in_compact_offset s = true <-> compact_offset_at_end s.
Proof.
  unfold ends_in_compact_offset. split.
  - destruct (rev s) as [|d4 [|d3 [|d2 [|d1 [|sg r]]]]] eqn:E; try discriminate.
    intros C. exists (rev r), sg, d1, d2, d3, d4. split; [|exact C].
    rewrite <- (rev_involutive s), E. simpl. now rewrite <- !app_assoc.
  - intros (pre & sg & d1 & d2 & d3 & d4 & -> & C).
    rewrite rev_app_distr. simpl. exact C.
Qed.

Lemma glob_offset (x : string) :
  glob "*[+-][0-9][0-9][0-9][0-9]" x = ends_in_compact_offset (chars x).
Proof.
  unfold glob. rewrite pattern_atoms.
  apply eq_true_iff_eq. now rewrite glob_offset_spec, ends_in_compact_offset_spec.
Qed.

Lemma substr3_prefix (x : string) (k : Z) :
  0 <= k <= Sql.length x -> substr3 x 1 k = text (take (Z.to_nat k) (chars x)).
Proof.
  intros Hk. unfold substr3. simpl.
  destruct (Z.ltb_spec k 0); [lia|].
  rewrite Z.min_l by lia. rewrite Z.min_l by lia. reflexivity.
Qed.

Lemma substr2_suffix (x : string) (k : Z) :
  0 < k <= Sql.length x -> k <= SQLITE_MAX_LENGTH ->
  substr2 x (- k) = text (drop (Z.to_nat (Sql.length x - k)) (chars x)).
Proof.
  intros Hk Hmax. unfold substr2, substr3.
  destruct (Z.ltb_spec (- k) 0); [|lia].
  destruct (Z.ltb_spec (- k + Sql.length x) 0); [lia|].
  change (SQLITE_MAX_LENGTH <? 0) with false. cbv iota.
  rewrite (Z.min_l (- k + Sql.length x)) by lia.
  replace (- k + Sql.length x) with (Sql.length x - k) by lia.
  rewrite take_ge; [reflexivity|].
  rewrite length_drop, chars_length. unfold Sql.length, SQLITE_MAX_LENGTH in *. lia.
Qed.

Lemma ts_norm_spec (timestamp : string) : ts_norm timestamp = normalize_spec timestamp.
Proof.
  unfold ts_norm, normalize_spec. rewrite glob_offset.
  destruct (ends_in_compact_offset (chars timestamp)) eqn:E; [|reflexivity].
  apply ends_in_compact_offset_spec in E as (pre & sg & d1 & d2 & d3 & d4 & E & _).
  assert (Hlen : 5 <= Sql.length timestamp).
  { unfold Sql.length. rewrite <- chars_length, E, length_app. simpl. lia. }
  rewrite substr3_prefix by lia.
  replace (-2) with (- (2)) by reflexivity. rewrite substr2_suffix by (unfold SQLITE_MAX_LENGTH; lia).
  rewrite !text_app. simpl.
  unfold Sql.length. rewrite chars_length.
  replace (Z.to_nat (Z.of_nat (String.length timestamp) - 2))
    with (String.length timestamp - 2)%nat by lia.
  reflexivity.
Qed.

Lemma text_take (s : string) (n : nat) :
  text (take n (chars s)) = String.substring 0 n s.
Proof.
  revert n. induction s as [|c s IH]; intros [|n]; simpl; try reflexivity.
  now rewrite IH.
Qed.

Lemma text_drop_2 (s : string) (n : nat) :
  (n + 2 = String.length s)%nat -> text (drop n (chars s)) = String.substring n 2 s.
Proof.
  revert n. induction s as [|c s IH]; intros n Hn; simpl in Hn; [lia|].
  destruct n as [|n]; simpl.
  - destruct s as [|c1 [|c2 s]]; simpl in *; try lia. reflexivity.
  - apply IH. lia.
Qed.

End Timestamps.

(** *** The read query *)

Section ReadQuery.
Context {grid : HexGrid}.

Lemma handleGetLocations_prepared (searchParams : gmap string string) query params meta :
  handleGetLocations searchParams = Prepared query params meta ->
  let after := given (searchParams !! "after") in
  let before := given (searchParams !! "before") in
  let source := given (searchParams !! "source") in
  let near := Spec.near_of searchParams in
  query = Spec.query_of after before source near /\
  params = Spec.params_of (days_of searchParams) (limit_of searchParams) after before source near /\
  (is_Some near <-> is_Some meta).
Proof.
  unfold handleGetLocations, Spec.near_of, Spec.query_of, Spec.params_of.
  destruct (searchParams !! "near_lat") as [a|], (searchParams !! "near_lon") as [b|];
    try destruct (isNaN (parseFloat a) || isNaN (parseFloat b)); try discriminate;
    destruct (given (searchParams !! "after")), (given (searchParams !! "before")),
      (given (searchParams !! "source"));
    intros [= <- <- <-]; cbv zeta; (split; [reflexivity | split; [reflexivity |]]);
    cbn; split; intros [x Hx]; try discriminate; eauto.
Qed.

Lemma handleGetLocations_rejected (searchParams : gmap string string) r :
  handleGetLocations searchParams = Rejected r ->
  r = errorResponse "near_lat and near_lon must be valid numbers" 400 /\
  exists a b, searchParams !! "near_lat" = Some a /\ searchParams !! "near_lon" = Some b /\
              isNaN (parseFloat a) || isNaN (parseFloat b) = true.
Proof.
  unfold handleGetLocations.
  destruct (searchParams !! "near_lat") as [a|], (searchParams !! "near_lon") as [b|];
    try destruct (isNaN (parseFloat a) || isNaN (parseFloat b)) eqn:E; try discriminate;
    try (destruct (given (searchParams !! "after")), (given (searchParams !! "before")),
           (given (searchParams !! "source")); discriminate).
  intros [= <-]. eauto 10.
Qed.

(** C5. [TS_NORM] puts a colon before the last two digits of a timestamp
    exactly when it ends in a sign and four digits, and returns any other
    string as it is; and every read query compares and orders records by
    [datetime(TS_NORM)]: in the lower bound (given or default), in the
    upper bound and in the ORDER BY. *)
Theorem timestamp_normalisation :
  (forall timestamp, Sql.ts_norm timestamp = Sql.normalize_spec timestamp) /\
  (forall timestamp,
     Sql.compact_offset_at_end (Sql.chars timestamp) ->
     let n := String.length timestamp in
     Sql.ts_norm timestamp
     = String.substring 0 (n - 2) timestamp +:+ ":" +:+ String.substring (n - 2) 2 timestamp) /\
  (forall timestamp,
     ~ Sql.compact_offset_at_end (Sql.chars timestamp) -> Sql.ts_norm timestamp = timestamp) /\
  (forall searchParams,
     match handleGetLocations searchParams with
     | Prepared query _ _ =>
         query = Spec.query_of (given (searchParams !! "after"))
                   (given (searchParams !! "before")) (given (searchParams !! "source"))
                   (Spec.near_of searchParams)
     | Rejected _ => True
     end) /\
  Spec.time_after = " AND datetime(" +:+ Sql.TS_NORM +:+ ") >= ?" /\
  Spec.time_window = " AND datetime(" +:+ Sql.TS_NORM +:+ ") >= datetime('now', ?)" /\
  Spec.time_before = " AND datetime(" +:+ Sql.TS_NORM +:+ ") <= ?" /\
  Spec.newest_first = " ORDER BY datetime(" +:+ Sql.TS_NORM +:+ ") DESC LIMIT ?" /\
  handleGetLatest_query
  = "SELECT * FROM locations ORDER BY datetime(" +:+ Sql.TS_NORM +:+ ") DESC LIMIT 1".
Proof.
  split; [exact ts_norm_spec|].
  split.
  { intros timestamp Hend n. rewrite ts_norm_spec. unfold Sql.normalize_spec.
    apply ends_in_compact_offset_spec in Hend as Hb. rewrite Hb.
    rewrite text_app, text_app. rewrite chars_length. fold n.
    f_equal; [apply text_take | f_equal; apply text_drop_2].
    destruct Hend as (pre & sg & d1 & d2 & d3 & d4 & E & _).
    subst n. rewrite <- chars_length, E, length_app. simpl. lia. }
  split.
  { intros timestamp Hend. rewrite ts_norm_spec. unfold Sql.normalize_spec.
    destruct (Sql.ends_in_compact_offset (Sql.chars timestamp)) eqn:E; [|reflexivity].
    apply ends_in_compact_offset_spec in E. contradiction. }
  split; [|repeat split].
  intros searchParams.
  destruct (handleGetLocations searchParams) as [r|query params meta] eqn:E; [exact I|].
  now apply handleGetLocations_prepared in E as (-> & _).
Qed.

(** C10. A read that gives [near_lat] and [near_lon] and no [after] is
    either refused (the centre is not a number) or prepared with no lower
    time bound at all: the query has the upper bound, source and cell
    predicates only, and the default window of [days] is not among its
    parameters. *)
Theorem spatial_read_has_no_lower_bound (searchParams : gmap string string) (a b : string) :
  searchParams !! "near_lat" = Some a ->
  searchParams !! "near_lon" = Some b ->
  given (searchParams !! "after") = None ->
  match handleGetLocations searchParams with
  | Rejected r =>
      isNaN (parseFloat a) || isNaN (parseFloat b) = true /\
      r = errorResponse "near_lat and near_lon must be valid numbers" 400
  | Prepared query params meta =>
      let before := given (searchParams !! "before") in
      let source := given (searchParams !! "source") in
      let f := buildNearbyParams (parseFloat a) (parseFloat b) (radiusKm_of searchParams) in
      query = (((Spec.select_all +:+ Spec.upper_bound before) +:+ Spec.source_filter source)
                +:+ Spec.cell_in (column f) (cells f)) +:+ Spec.newest_first /\
      params = (match before with Some t => [PStr t] | None => [] end
                ++ match source with Some t => [PStr t] | None => [] end
                ++ map PStr (cells f) ++ [PNum (limit_of searchParams)])%list /\
      (forall days, PDays days ∉ params) /\
      is_Some meta
  end.
Proof.
  intros Ha Hb Hafter.
  destruct (handleGetLocations searchParams) as [r|query params meta] eqn:E.
  - apply handleGetLocations_rejected in E as (-> & a' & b' & Ha' & Hb' & Hnan).
    rewrite Ha in Ha'. rewrite Hb in Hb'. injection Ha' as <-. injection Hb' as <-. auto.
  - apply handleGetLocations_prepared in E as (-> & -> & Hmeta).
    unfold Spec.near_of in *. rewrite Ha, Hb in *. rewrite Hafter.
    cbv zeta. split; [reflexivity|]. split; [reflexivity|]. split.
    + intros days. unfold Spec.params_of. cbn [app].
      rewrite !elem_of_app, list_elem_of_fmap, list_elem_of_singleton.
      intros [Hin|[Hin|[(c & Hc & _)|Hin]]]; try discriminate.
      * destruct (given (searchParams !! "before")); [|inversion Hin].
        apply list_elem_of_singleton in Hin. discriminate.
      * destruct (given (searchParams !! "source")); [|inversion Hin].
        apply list_elem_of_singleton in Hin. discriminate.
    + apply Hmeta. eauto.
Qed.

End ReadQuery.

(** A request for the cells around a point, with no [after]. *)
Lemma spatial_read_has_no_lower_bound_witness :
  match handleGetLocations (grid := one_cell_grid)
          (list_to_map [("near_lat", "35.68"); ("near_lon", "139.76"); ("radius", "3")]) with
  | Prepared query params _ =>
      query = ((Spec.select_all +:+ " AND h3_res7 IN (?)") +:+ Spec.newest_first) /\
      params = [PStr "87"; PNum 1000]
  | Rejected _ => False
  end.
Proof.
  pose proof (spatial_read_has_no_lower_bound (grid := one_cell_grid)
    (list_to_map [("near_lat", "35.68"); ("near_lon", "139.76"); ("radius", "3")])
    "35.68" "139.76" eq_refl eq_refl eq_refl) as W.
  destruct (handleGetLocations _) as [r|query params meta].
  - destruct W as [W _]. vm_compute in W. discriminate W.
  - destruct W as (-> & -> & _). split; vm_compute; reflexivity.
Defined.

(** *** Ingestion of one message *)

Section Post.
Context {grid : HexGrid} {DB : Type} {d1 : D1 DB}.




(** The five ways a POST /locations call can go: it throws before any
    write, it acknowledges without a write, it refuses the payload, or it
    runs one INSERT and then answers. *)
Lemma handlePostLocation_cases (now : string) (json : value) (w : world DB) :
  handlePostLocation now json w = (Thrown TypeError, w)
  \/ handlePostLocation now json w = (Thrown RangeError, w)
  \/ handlePostLocation now json w = (Returned (jsonResponse (VArr []) 200), w)
  \/ handlePostLocation now json w
     = (Returned (errorResponse "Invalid payload: lat and lon required" 400), w)
  \/ exists columns binds resp,
       Spec.indexed_together (Insert columns binds) /\
       handlePostLocation now json w
       = bind (db_run (Insert columns binds)) (fun _ => ret resp) w.
Proof.
  unfold handlePostLocation.
  destruct (fields_of json) as [body|]; [|auto].
  repeat match goal with
         | |- context [if ?c then _ else _] =>
             lazymatch c with
             | context [prop body] => destruct c
             end
         end;
    try (unfold bind at 1, timestamp_of;
         destruct (truthy (prop body "tst"));
         [destruct (Date_toISOString _); unfold ret, throw; [|auto]|unfold ret]);
    try (do 4 right; eexists _, _, _; split; [|reflexivity]; split; reflexivity);
    auto 6.
Qed.

(** The calls a POST /locations makes: none, or one INSERT. *)
Lemma handlePostLocation_calls (now : string) (json : value) (w : world DB) :
  let w' := snd (handlePostLocation now json w) in
  (w' = w) \/
  (exists columns binds,
     Spec.indexed_together (Insert columns binds) /\
     calls w' = (calls w ++ [Run (Insert columns binds)])%list /\
     (d1_run (Insert columns binds) (db w) = Some (db w') \/
      (d1_run (Insert columns binds) (db w) = None /\ db w' = db w))).
Proof.
  cbv zeta.
  destruct (handlePostLocation_cases now json w)
    as [E|[E|[E|[E|(columns & binds & resp & Hidx & E)]]]]; rewrite E; auto.
  right. exists columns, binds. split; [exact Hidx|].
  unfold bind, db_run, ret.
  destruct (d1_run (Insert columns binds) (db w)); simpl; auto.
Qed.

(** C1. A message tagged [location] with no [lat] and [lon] is not
    answered with the 400 of an invalid payload: the handler passes the
    missing coordinates to an INSERT, and answers with the empty list if
    the database takes it, or fails with the database's error if not. *)
Theorem location_without_coordinates_is_inserted (now : string) (w : world DB) :
  let json := obj [("_type", VStr "location")] in
  let s := Insert ["timestamp"; "lat"; "lon"; "accuracy"; "altitude"; "speed"; "source";
                   "h3_res7"; "h3_res9"]
                  [VStr now; VUndefined; VUndefined; VNull; VNull; VNull; VStr "owntracks";
                   VNull; VNull] in
  calls (snd (handlePostLocation now json w)) = (calls w ++ [Run s])%list /\
  fst (handlePostLocation now json w)
  = match d1_run s (db w) with
    | Some _ => Returned (jsonResponse (VArr []) 200)
    | None => Thrown D1_ERROR
    end /\
  fst (handlePostLocation now json w)
  <> Returned (errorResponse "Invalid payload: lat and lon required" 400).
Proof.
  cbv zeta.
  assert (E : handlePostLocation now (obj [("_type", VStr "location")]) w
              = bind (db_run (Insert
                  ["timestamp"; "lat"; "lon"; "accuracy"; "altitude"; "speed"; "source";
                   "h3_res7"; "h3_res9"]
                  [VStr now; VUndefined; VUndefined; VNull; VNull; VNull; VStr "owntracks";
                   VNull; VNull])) (fun _ => ret (jsonResponse (VArr []) 200)) w).
  { reflexivity. }
  rewrite E. unfold bind, db_run, ret.
  destruct (d1_run _ (db w)); simpl; repeat split; discriminate.
Qed.

End Post.

(** On the table, the INSERT of C1 is refused by the database (D1 does not
    bind [undefined]), so the call fails with a server error. *)
Lemma location_without_coordinates_on_table :
  handlePostLocation (grid := one_cell_grid) "2024-01-01T00:00:00.000Z"
    (obj [("_type", VStr "location")]) (World Table.empty [])
  = (Thrown D1_ERROR,
     World Table.empty
       [Run (Insert ["timestamp"; "lat"; "lon"; "accuracy"; "altitude"; "speed"; "source";
                     "h3_res7"; "h3_res9"]
                    [VStr "2024-01-01T00:00:00.000Z"; VUndefined; VUndefined; VNull; VNull;
                     VNull; VStr "owntracks"; VNull; VNull])]).
Proof. reflexivity. Qed.

Section PostGuarantee.
Context {grid : HexGrid}.

Lemma table_run_insert_count (columns : list string) (binds : list value) (t t' : Table.table) :
  Table.run (Insert columns binds) t = Some t' ->
  Table.count_all t' = Table.count_all t + 1.
Proof.
  simpl. unfold Table.insert.
  destruct (mapM Table.to_sql binds); [|discriminate].
  destruct (negb _); [discriminate|].
  destruct (_ || _); [discriminate|].
  intros [= <-]. unfold Table.count_all, len. simpl. rewrite length_app. simpl. lia.
Qed.

(** C8, as amended. A POST /locations call submits at most one statement,
    an INSERT of one row (on the table: the number of rows grows by at
    most one); and a body whose type tag is truthy and is none of
    [location], [waypoint], [transition] is acknowledged with the empty
    list without any call to the database. *)
Theorem post_persists_at_most_one (now : string) (json : value) :
  (forall (DB : Type) (d1 : D1 DB) (w : world DB),
     let w' := snd (handlePostLocation now json w) in
     (w' = w \/
      exists columns binds, calls w' = (calls w ++ [Run (Insert columns binds)])%list)) /\
  (forall w : world Table.table,
     let w' := snd (handlePostLocation now json w) in
     Table.count_all (db w) <= Table.count_all (db w') <= Table.count_all (db w) + 1) /\
  (forall (DB : Type) (d1 : D1 DB) (w : world DB) (body : record),
     fields_of json = Some body ->
     truthy (prop body "_type") = true ->
     strict_eq_str (prop body "_type") "location" = false ->
     strict_eq_str (prop body "_type") "waypoint" = false ->
     strict_eq_str (prop body "_type") "transition" = false ->
     handlePostLocation now json w = (Returned (jsonResponse (VArr []) 200), w)).
Proof.
  split; [|split].
  - intros DB d1 w. cbv zeta.
    destruct (handlePostLocation_calls now json w) as [E|(columns & binds & _ & E & _)]; eauto.
  - intros w. cbv zeta.
    destruct (handlePostLocation_calls now json w) as [E|(columns & binds & _ & _ & [E|[_ E]])].
    + rewrite E. lia.
    + apply table_run_insert_count in E. lia.
    + rewrite E. lia.
  - intros DB d1 w body Hbody Htag Hl Hw Ht. unfold handlePostLocation.
    rewrite Hbody, Hl, Hw, Ht, Htag. reflexivity.
Qed.

End PostGuarantee.

(** The message [{_type: "status"}] of the specification. *)
Lemma post_persists_at_most_one_witness :
  handlePostLocation (grid := one_cell_grid) "2024-01-01T00:00:00.000Z"
    (obj [("_type", VStr "status")]) (World Table.empty [])
  = (Returned (jsonResponse (VArr []) 200), World Table.empty []).
Proof.
  apply (post_persists_at_most_one (grid := one_cell_grid) "2024-01-01T00:00:00.000Z"
           (obj [("_type", VStr "status")]))
    with (body := list_to_map [("_type", VStr "status")]); reflexivity.
Defined.

(** C8 as stated fails on a falsy tag: the empty string is a type tag
    other than [location], [waypoint] and [transition], and a body that
    carries it with coordinates is stored as a generic payload and
    answered with [{status: "ok"}] and 201, not with the empty list. *)
Lemma empty_type_tag_is_persisted :
  let body : record := list_to_map [("_type", VStr ""); ("lat", VNum 35); ("lon", VNum 139)] in
  let '(r, w') := handlePostLocation (grid := one_cell_grid) "2024-01-01T00:00:00.000Z"
                    (VObj body) (World Table.empty []) in
  prop body "_type" = VStr "" /\
  r = Returned (jsonResponse (obj [("status", VStr "ok")]) 201) /\
  r <> Returned (jsonResponse (VArr []) 200) /\
  Table.count_all (db w') = 1.
Proof. vm_compute. repeat split. discriminate. Qed.

(** *** Paging *)

Section Paging.
Context {DB : Type} {d1 : D1 DB}.

Lemma pages_cons {A} (xs : list A) :
  xs <> [] -> Spec.pages xs = take batchSize xs :: Spec.pages (drop batchSize xs).
Proof. destruct xs; [congruence|]. intros _. now simp pages. Qed.

(** The index loop visits the pages of its input in order. *)
Lemma for_chunks_pages {A St} (xs : list A) (body : nat -> list A -> St -> M DB St) :
  forall i st w,
    for_chunks xs body i st w = Spec.run_pages body i (Spec.pages (drop i xs)) st w.
Proof.
  intros i st w. funelim (for_chunks xs body i st w).
  - rewrite drop_ge by lia. reflexivity.
  - rewrite (pages_cons (drop i xs)).
    2:{ intros E. apply (f_equal length) in E. rewrite length_drop in E. simpl in E. lia. }
    simpl. rewrite drop_drop.
    match goal with E : body0 _ _ _ _ = _ |- _ => rewrite E end. auto.
  - rewrite (pages_cons (drop i xs)).
    2:{ intros E. apply (f_equal length) in E. rewrite length_drop in E. simpl in E. lia. }
    simpl.
    match goal with E : body0 _ _ _ _ = _ |- _ => rewrite E end. auto.
Qed.

Lemma pages_ind {A} (P : list A -> Prop) :
  P [] ->
  (forall xs, xs <> [] -> P (drop batchSize xs) -> P xs) ->
  forall xs, P xs.
Proof.
  intros Hnil Hstep xs.
  remember (length xs) as n eqn:Hn. revert xs Hn.
  induction n as [n IH] using lt_wf_ind. intros xs ->.
  destruct xs as [|x xs]; [exact Hnil|].
  apply Hstep; [discriminate|].
  apply (IH (length (drop batchSize (x :: xs)))); [|reflexivity].
  rewrite length_drop. unfold batchSize. simpl. lia.
Qed.

Lemma pages_concat {A} (xs : list A) : concat (Spec.pages xs) = xs.
Proof.
  induction xs as [|xs Hne IH] using pages_ind; [reflexivity|].
  rewrite pages_cons by exact Hne. simpl. rewrite IH. apply take_drop.
Qed.



Lemma sum_pages {A} (xs : list A) :
  foldr (fun p n => len p + n) 0 (Spec.pages xs) = len xs.
Proof.
  induction xs as [|xs Hne IH] using pages_ind; [reflexivity|].
  rewrite pages_cons by exact Hne. simpl. rewrite IH.
  unfold len. rewrite length_take, length_drop. lia.
Qed.

End Paging.

(** *** Batch import *)

Section BatchImport.
Context {grid : HexGrid} {DB : Type} {d1 : D1 DB}.







End BatchImport.



(** *** The index columns are computed together *)

Section Indexing.
Context {grid : HexGrid} {DB : Type} {d1 : D1 DB}.

(** A property of the database that statements indexed together keep. *)
Variable P : DB -> Prop.
Hypothesis P_run : forall s d d',
  Spec.indexed_together s -> d1_run s d = Some d' -> P d -> P d'.
Hypothesis P_batch : forall ss d d',
  Forall Spec.indexed_together ss -> d1_batch ss d = Some d' -> P d -> P d'.











Lemma handleBackfillH3_unfold (w : world DB) :
  handleBackfillH3 w
  = let rows := d1_select_unindexed 1000 (db w) in
    if len rows =? 0 then
      (Returned (jsonResponse
                   (obj [("status", VStr "complete"); ("updated", num 0);
                         ("remaining", num 0);
                         ("total_records", num (d1_count_all (db w)))]) 200), w)
    else
      match Spec.run_pages backfill_page 0 (Spec.pages rows) 0 w with
      | (Returned updated, w') =>
          let remaining := d1_count_unindexed (db w') in
          (Returned (jsonResponse
                       (obj [("status",
                              VStr (if 0 <? remaining then "in_progress" else "complete"));
                             ("updated", num updated); ("remaining", num remaining)]) 200),
           w')
      | (Thrown e, w') => (Thrown e, w')
      end.
Proof.
  unfold handleBackfillH3, bind, db_select_unindexed, db_count_all, db_count_unindexed, ret.
  cbv zeta. destruct (len _ =? 0); [reflexivity|].
  rewrite for_chunks_pages, drop_0.
  destruct (Spec.run_pages _ _ _ _ _) as [[updated|e] w']; reflexivity.
Qed.


End Indexing.

Section IndexingOnTable.
Context {grid : HexGrid}.

Lemma to_sql_cell (c : option string) : Table.to_sql (cell_value c) = Some (cell_value c).
Proof. destruct c; reflexivity. Qed.







End IndexingOnTable.

(** *** Backfill *)

Section BackfillOnTable.
Context {grid : HexGrid}.

Lemma reindex_nil (t : Table.table) : Table.reindex [] t = t.
Proof. destruct t as [rows n]. unfold Table.reindex. simpl. now rewrite map_id. Qed.

Lemma reindex_app (sel1 sel2 : list coord_row) (t : Table.table) :
  Table.reindex sel2 (Table.reindex sel1 t) = Table.reindex (sel1 ++ sel2) t.
Proof.
  unfold Table.reindex. simpl. f_equal. rewrite map_map.
  apply map_ext. intros x. unfold Table.rewritten. now rewrite fold_left_app.
Qed.

Lemma table_run_backfill (r : coord_row) (t : Table.table) :
  Table.run (backfill_stmt r) t = Some (Table.reindex [r] t).
Proof.
  unfold backfill_stmt. simpl. unfold Table.update_h3. rewrite !to_sql_cell.
  unfold Table.reindex, Table.reindex_row. reflexivity.
Qed.

Lemma table_batch_backfill (chunk : list coord_row) :
  forall t, Table.batch (map backfill_stmt chunk) t = Some (Table.reindex chunk t).
Proof.
  induction chunk as [|r chunk IH]; intros t.
  - now rewrite reindex_nil.
  - cbn [map Table.batch]. rewrite table_run_backfill, IH.
    now rewrite reindex_app.
Qed.

Lemma run_pages_backfill (ps : list (list coord_row)) :
  forall i updated (w : world Table.table),
    Spec.run_pages backfill_page i ps updated w
    = (Returned (updated + foldr (fun p n => len p + n) 0 ps),
       World (Table.reindex (concat ps) (db w))
             (calls w ++ map (fun p => Batch (map backfill_stmt p)) ps)).
Proof.
  induction ps as [|p ps IH]; intros i updated w; cbn [Spec.run_pages].
  - simpl. rewrite reindex_nil, app_nil_r, Z.add_0_r. now destruct w.
  - unfold backfill_page at 1, bind, db_batch, ret.
    change (d1_batch (map backfill_stmt p) (db w)) with (Table.batch (map backfill_stmt p) (db w)).
    rewrite table_batch_backfill. rewrite IH. cbn [db calls concat map foldr].
    rewrite reindex_app, <- app_assoc. do 2 f_equal. lia.
Qed.

(** One call of the backfill on the table: it returns, and the table it
    leaves is the old one with the selected rows rewritten. *)
Lemma handleBackfillH3_on_table (w : world Table.table) :
  let sel := Table.select_unindexed 1000 (db w) in
  let t' := Table.reindex sel (db w) in
  exists resp cs,
    handleBackfillH3 w = (Returned resp, World t' (calls w ++ cs)) /\
    status resp = 200 /\
    field resp "remaining" = num (if len sel =? 0 then 0 else Table.count_unindexed t') /\
    field resp "status"
    = VStr (if len sel =? 0 then "complete"
            else if 0 <? Table.count_unindexed t' then "in_progress" else "complete") /\
    field resp "updated" = num (len sel).
Proof.
  cbv zeta. rewrite handleBackfillH3_unfold. cbv zeta.
  change (d1_select_unindexed 1000 (db w)) with (Table.select_unindexed 1000 (db w)).
  destruct (len (Table.select_unindexed 1000 (db w)) =? 0) eqn:E.
  - assert (Hsel : Table.select_unindexed 1000 (db w) = []).
    { apply Z.eqb_eq in E. unfold len in E. destruct (Table.select_unindexed 1000 (db w));
        [reflexivity | simpl in E; lia]. }
    rewrite Hsel, reindex_nil. eexists _, []. rewrite app_nil_r.
    split; [now destruct w|]. repeat split; reflexivity.
  - rewrite run_pages_backfill, pages_concat, sum_pages.
    cbn [db]. change (d1_count_unindexed ?t) with (Table.count_unindexed t).
    eexists _, _. split; [reflexivity|]. repeat split; try reflexivity.
Qed.

(** What the rewriting does to one row. *)

Lemma rewritten_same (sel : list coord_row) :
  forall x, Table.id (Table.rewritten sel x) = Table.id x
            /\ Table.lat (Table.rewritten sel x) = Table.lat x
            /\ Table.lon (Table.rewritten sel x) = Table.lon x.
Proof.
  induction sel as [|r sel IH]; intros x; [auto|].
  unfold Table.rewritten in *. cbn [fold_left]. destruct (IH (Table.reindex_row r x)) as (-> & -> & ->).
  unfold Table.reindex_row. destruct (Table.id x =? row_id r); auto.
Qed.

Lemma rewritten_untouched (sel : list coord_row) :
  forall x, Forall (fun r => row_id r <> Table.id x) sel -> Table.rewritten sel x = x.
Proof.
  induction sel as [|r sel IH]; intros x Hall; [reflexivity|].
  inversion Hall as [|? ? Hr Hsel]; subst. unfold Table.rewritten in *. cbn [fold_left].
  unfold Table.reindex_row at 2.
  destruct (Z.eqb_spec (Table.id x) (row_id r)); [congruence|]. now apply IH.
Qed.



(** Counting what is left to index. *)









End BackfillOnTable.

Section Backfill.
Context {grid : HexGrid}.



End Backfill.



(** On that table no number of calls changes anything: every call answers
    [in_progress]. *)
Lemma backfill_text_coordinates_forever (k : nat) :
  forall w : world Table.table,
    db w = text_coordinates_table ->
    Forall (fun r => exists resp, r = Returned resp /\
                                  field resp "status" = VStr "in_progress" /\
                                  field resp "remaining" = num 1)
           (Table.repeat_backfill (grid := one_cell_grid) k w).1.
Proof.
  induction k as [|k IH]; intros w Hw; [constructor|].
  destruct (handleBackfillH3_on_table (grid := one_cell_grid) w)
    as (resp & cs & E & _ & Hrem & Hst & _).
  cbv zeta in *. rewrite Hw in *.
  change (Table.reindex (Table.select_unindexed 1000 text_coordinates_table)
            text_coordinates_table) with text_coordinates_table in *.
  change (Table.repeat_backfill (grid := one_cell_grid) (S k) w)
    with (let '(r, w1) := handleBackfillH3 (grid := one_cell_grid) w in
          let '(rs, w2) := Table.repeat_backfill (grid := one_cell_grid) k w1 in
          (r :: rs, w2)).
  rewrite E. specialize (IH (World text_coordinates_table (calls w ++ cs)) eq_refl).
  destruct (Table.repeat_backfill k _) as [rs w2]. cbn [fst] in *.
  constructor; [|exact IH]. exists resp. repeat split; assumption.
Qed.

(** *** More on timestamps *)

Section TimestampsMore.
Import Sql.

Lemma chars_app (a b : string) : chars (a +:+ b) = (chars a ++ chars b)%list.
Proof. induction a as [|c a IH]; simpl; [reflexivity|]. now rewrite IH. Qed.

Lemma chars_text (l : list ascii) : chars (text l) = l.
Proof. apply String.list_ascii_of_string_of_list_ascii. Qed.

Lemma text_chars (s : string) : text (chars s) = s.
Proof. apply String.string_of_list_ascii_of_string. Qed.

Lemma normalize_spec_fixed (timestamp : string) :
  ends_in_compact_offset (chars timestamp) = false -> normalize_spec timestamp = timestamp.
Proof. unfold normalize_spec. now intros ->. Qed.

(** The normalised form of a timestamp with a compact offset has a colon
    third from its end, so it has no compact offset. *)
Lemma normalized_has_no_compact_offset (timestamp : string) :
  ends_in_compact_offset (chars (normalize_spec timestamp)) = false.
Proof.
  unfold normalize_spec.
  destruct (ends_in_compact_offset (chars timestamp)) eqn:E; [|exact E].
  apply ends_in_compact_offset_spec in E.
  destruct E as (pre & sg & d1 & d2 & d3 & d4 & -> & _).
  rewrite chars_text, length_app. cbn [List.length].
  replace (List.length pre + 5 - 2)%nat with (List.length pre + 3)%nat by lia.
  rewrite take_app_add', drop_app_add' by reflexivity.
  unfold ends_in_compact_offset.
  rewrite !rev_app_distr. cbn.
  rewrite !andb_false_r. reflexivity.
Qed.

(** X1. [TS_NORM] is idempotent: a timestamp that has been normalised is left
    as it is. *)
Lemma ts_norm_idempotent (timestamp : string) :
  ts_norm (ts_norm timestamp) = ts_norm timestamp.
Proof.
  rewrite !ts_norm_spec.
  apply normalize_spec_fixed, normalized_has_no_compact_offset.
Qed.

Lemma ends_in_Z_fixed (a : string) : ts_norm (a +:+ "Z") = a +:+ "Z".
Proof.
  rewrite ts_norm_spec. apply normalize_spec_fixed.
  unfold ends_in_compact_offset. rewrite chars_app, rev_app_distr. cbn.
  destruct (rev (chars a)) as [|d3 [|d2 [|d1 [|sg r]]]]; try reflexivity.
  now rewrite andb_false_r.
Qed.

Lemma append_assoc (a b c : string) : a +:+ b +:+ c = (a +:+ b) +:+ c.
Proof.
  rewrite <- (text_chars (a +:+ b +:+ c)), <- (text_chars ((a +:+ b) +:+ c)).
  now rewrite !chars_app, app_assoc.
Qed.

(** X2. The timestamps the worker generates, [new Date(..).toISOString()], end
    in [Z]: the reads compare them as they are stored. *)
Lemma generated_timestamp_is_normal (ms : float) (t : string) :
  JS.Date_toISOString ms = Some t -> ts_norm t = t.
Proof.
  unfold JS.Date_toISOString.
  destruct (JS.trunc ms) as [z|]; [|discriminate].
  destruct (Z.abs z <=? 8640000000000000); [|discriminate].
  destruct (JS.civil_from_days _) as [[y m] d].
  intros [= <-].
  rewrite !append_assoc. apply ends_in_Z_fixed.
Qed.

End TimestampsMore.

(** The time 1700000000 of the epoch, in milliseconds. *)
Lemma generated_timestamp_is_normal_witness :
  JS.Date_toISOString 1700000000000 = Some "2023-11-14T22:13:20.000Z" /\
  Sql.ts_norm "2023-11-14T22:13:20.000Z" = "2023-11-14T22:13:20.000Z".
Proof.
  split; [reflexivity|].
  apply (generated_timestamp_is_normal 1700000000000). reflexivity.
Defined.

(** *** More on the read query *)

Section ReadQueryMore.
Context {grid : HexGrid}.

Lemma placeholders_in_app (a b : string) :
  placeholders_in (a +:+ b) = (placeholders_in a + placeholders_in b)%nat.
Proof. unfold placeholders_in. now rewrite chars_app, count_occ_app. Qed.

Lemma placeholders_count (cells : list string) :
  placeholders_in (placeholders cells) = length cells.
Proof.
  unfold placeholders.
  induction cells as [|c [|c' cells] IH]; [reflexivity|reflexivity|].
  change (String.concat ", " (map (fun _ : string => "?") (c :: c' :: cells)))
    with ("?" +:+ ", " +:+ String.concat ", " (map (fun _ : string => "?") (c' :: cells))).
  rewrite !placeholders_in_app, IH. reflexivity.
Qed.

Lemma buildNearbyParams_column (lat lon radiusKm : float) :
  column (buildNearbyParams lat lon radiusKm) = "h3_res7"
  \/ column (buildNearbyParams lat lon radiusKm) = "h3_res9".
Proof. unfold buildNearbyParams. destruct (PrimFloat.leb 2 radiusKm); auto. Qed.

(** X3. Every value that a reader supplies is bound to a placeholder: the
    text of a prepared query has exactly one [?] for each parameter. *)
Lemma placeholders_match_parameters (searchParams : gmap string string) query params meta :
  handleGetLocations searchParams = Prepared query params meta ->
  placeholders_in query = length params.
Proof.
  intros E. apply handleGetLocations_prepared in E as (-> & -> & _).
  unfold Spec.query_of, Spec.params_of.
  rewrite !placeholders_in_app, !length_app.
  assert (Hnear : placeholders_in (Spec.spatial_filter (Spec.near_of searchParams))
                  = length match Spec.near_of searchParams with
                           | Some f => map PStr (cells f)
                           | None => []
                           end).
  { unfold Spec.near_of.
    destruct (searchParams !! "near_lat") as [a|]; [|reflexivity].
    destruct (searchParams !! "near_lon") as [b|]; [|reflexivity].
    cbn [Spec.spatial_filter]. unfold Spec.cell_in.
    rewrite !placeholders_in_app, placeholders_count, length_map.
    set (f := buildNearbyParams _ _ _).
    assert (Hcol : placeholders_in (column f) = 0%nat).
    { destruct (buildNearbyParams_column (parseFloat a) (parseFloat b)
                  (radiusKm_of searchParams)) as [E|E]; fold f in E; rewrite E; reflexivity. }
    rewrite Hcol.
    change (placeholders_in " AND ") with 0%nat.
    change (placeholders_in " IN (") with 0%nat.
    change (placeholders_in ")") with 0%nat.
    lia. }
  rewrite Hnear. clear Hnear.
  assert (H0 : placeholders_in Spec.select_all = 0%nat) by reflexivity.
  assert (H1 : placeholders_in Spec.time_after = 1%nat) by reflexivity.
  assert (H2 : placeholders_in Spec.time_window = 1%nat) by reflexivity.
  assert (H3 : placeholders_in Spec.time_before = 1%nat) by reflexivity.
  assert (H4 : placeholders_in Spec.source_is = 1%nat) by reflexivity.
  assert (H5 : placeholders_in Spec.newest_first = 1%nat) by reflexivity.
  assert (H6 : placeholders_in "" = 0%nat) by reflexivity.
  rewrite H0, H5.
  generalize (length match Spec.near_of searchParams with
                     | Some f => map PStr (cells f)
                     | None => []
                     end).
  intros n.
  destruct (given (searchParams !! "after")), (given (searchParams !! "before")),
    (given (searchParams !! "source")), (Spec.near_of searchParams);
    cbn [Spec.lower_bound Spec.upper_bound Spec.source_filter bool_decide is_Some length];
    try case_bool_decide;
    rewrite ?H1, ?H2, ?H3, ?H4, ?H6; try lia; exfalso;
    match goal with
    | H : ~ is_Some (Some _) |- _ => apply H; eauto
    | H : is_Some None |- _ => destruct H; discriminate
    end.
Qed.

Ltac other_key := rewrite lookup_insert_ne by discriminate.

(** X4. The [days] parameter has no effect once [after] is given, or once a
    centre is given: the same request with any other [days] is planned
    in the same way. *)
Lemma days_ignored (searchParams : gmap string string) (days : string) :
  is_Some (given (searchParams !! "after"))
  \/ (is_Some (searchParams !! "near_lat") /\ is_Some (searchParams !! "near_lon")) ->
  handleGetLocations (<["days" := days]> searchParams) = handleGetLocations searchParams.
Proof.
  intros H. unfold handleGetLocations, limit_of, radiusKm_of.
  repeat other_key.
  destruct (searchParams !! "near_lat") as [a|], (searchParams !! "near_lon") as [b|];
    cbv zeta;
    try destruct (isNaN (parseFloat a) || isNaN (parseFloat b)); try reflexivity;
    destruct (given (searchParams !! "after")); try reflexivity;
    destruct H as [[? [=]]|[[? [=]] [? [=]]]].
Qed.

(** X5. A centre of which only one coordinate is given is not an error: the
    request is planned as if it had no spatial parameter at all. *)
Lemma half_centre_ignored (searchParams : gmap string string) :
  searchParams !! "near_lat" = None \/ searchParams !! "near_lon" = None ->
  (exists query params, handleGetLocations searchParams = Prepared query params None) /\
  handleGetLocations searchParams
  = handleGetLocations (delete "near_lat" (delete "near_lon" (delete "radius" searchParams))).
Proof.
  intros H. unfold handleGetLocations, days_of, limit_of.
  repeat (rewrite ?lookup_delete_eq; rewrite ?lookup_delete_ne by discriminate).
  assert (E : match searchParams !! "near_lat", searchParams !! "near_lon" with
              | Some _, Some _ => False
              | _, _ => True
              end).
  { destruct H as [-> | ->]; [exact I|]. now destruct (searchParams !! "near_lat"). }
  destruct (searchParams !! "near_lat") as [a|], (searchParams !! "near_lon") as [b|];
    try contradiction; cbv zeta;
    destruct (given (searchParams !! "after")), (given (searchParams !! "before")),
      (given (searchParams !! "source")); eauto.
Qed.

End ReadQueryMore.

(** A spatial request with a source filter. *)
Lemma placeholders_match_parameters_witness :
  match handleGetLocations (grid := one_cell_grid)
          (list_to_map [("near_lat", "35.68"); ("near_lon", "139.76"); ("source", "visit")]) with
  | Prepared query params _ => placeholders_in query = length params
  | Rejected _ => False
  end.
Proof.
  destruct (handleGetLocations (grid := one_cell_grid)
      (list_to_map [("near_lat", "35.68"); ("near_lon", "139.76"); ("source", "visit")]))
    as [r|query params meta] eqn:E; [vm_compute in E; discriminate E|].
  exact (placeholders_match_parameters _ _ _ _ E).
Defined.

(** [after] given: 7 days and 30 days make the same plan. *)
Lemma days_ignored_witness :
  handleGetLocations (grid := one_cell_grid)
    (<["days" := "30"]> (list_to_map [("after", "2024-01-01T00:00:00Z")]))
  = handleGetLocations (grid := one_cell_grid)
      (list_to_map [("after", "2024-01-01T00:00:00Z")]).
Proof.
  apply (days_ignored (grid := one_cell_grid)
           (list_to_map [("after", "2024-01-01T00:00:00Z")]) "30").
  left. vm_compute. eauto.
Defined.

(** Only [near_lat] given, with a radius. *)
Lemma half_centre_ignored_witness :
  handleGetLocations (grid := one_cell_grid)
    (list_to_map [("near_lat", "35.68"); ("radius", "5")])
  = handleGetLocations (grid := one_cell_grid) ∅.
Proof.
  refine (eq_trans (proj2 (half_centre_ignored (grid := one_cell_grid)
                             (list_to_map [("near_lat", "35.68"); ("radius", "5")]) _)) _).
  - right. reflexivity.
  - f_equal.
Defined.

(** *** More on the ingestion of one message *)

Section PostMore.
Context {grid : HexGrid} {DB : Type} {d1 : D1 DB}.

Lemma strict_eq_str_true (v : value) (s : string) :
  strict_eq_str v s = true -> v = VStr s.
Proof.
  destruct v; try discriminate. unfold strict_eq_str.
  intros E. apply String.eqb_eq in E. now subst.
Qed.






(** X7. A waypoint or a transition that lacks a coordinate is acknowledged
    like a message of an unknown type: the empty list, and no call to the
    database. *)
Lemma region_message_without_coordinates (now : string) (json : value) (body : record)
    (w : world DB) :
  fields_of json = Some body ->
  strict_eq_str (prop body "_type") "waypoint"
  || strict_eq_str (prop body "_type") "transition" = true ->
  not_undefined (prop body "lat") && not_undefined (prop body "lon") = false ->
  handlePostLocation now json w = (Returned (jsonResponse (VArr []) 200), w).
Proof.
  intros Hbody Htag Hc. unfold handlePostLocation. rewrite Hbody.
  apply orb_true_iff in Htag as [Htag|Htag]; apply strict_eq_str_true in Htag;
    rewrite Htag; cbn [strict_eq_str truthy]; rewrite <- !andb_assoc, Hc;
    reflexivity.
Qed.

(** X8. An OwnTracks message whose [tst] is truthy but is no time (it is not
    a finite number, or is out of the range of dates) makes the call fail
    with a RangeError before anything is written. *)
Lemma invalid_time_is_a_range_error (now : string) (json : value) (body : record)
    (w : world DB) :
  fields_of json = Some body ->
  strict_eq_str (prop body "_type") "location"
  || (strict_eq_str (prop body "_type") "waypoint"
      || strict_eq_str (prop body "_type") "transition")
     && (not_undefined (prop body "lat") && not_undefined (prop body "lon")) = true ->
  truthy (prop body "tst") = true ->
  Date_toISOString (Number (prop body "tst") * 1000) = None ->
  handlePostLocation now json w = (Thrown RangeError, w).
Proof.
  intros Hbody Htag Htst Hdate. unfold handlePostLocation. rewrite Hbody.
  assert (Hstamp : forall k : string -> M DB Response,
             bind (timestamp_of now (prop body "tst")) k w = (Thrown RangeError, w)).
  { intros k. unfold bind, timestamp_of. now rewrite Htst, Hdate. }
  apply orb_true_iff in Htag as [Htag|Htag].
  - rewrite Htag. apply Hstamp.
  - apply andb_true_iff in Htag as [Htag Hc].
    apply orb_true_iff in Htag as [Htag|Htag]; apply strict_eq_str_true in Htag;
      rewrite Htag; cbn [strict_eq_str]; rewrite <- !andb_assoc, Hc; apply Hstamp.
Qed.

End PostMore.


(** A waypoint with a description and no position. *)
Lemma region_message_without_coordinates_witness :
  handlePostLocation (grid := one_cell_grid) "2024-01-01T00:00:00.000Z"
    (obj [("_type", VStr "waypoint"); ("desc", VStr "home")]) (World Table.empty [])
  = (Returned (jsonResponse (VArr []) 200), World Table.empty []).
Proof.
  apply (region_message_without_coordinates (grid := one_cell_grid)
           "2024-01-01T00:00:00.000Z"
           (obj [("_type", VStr "waypoint"); ("desc", VStr "home")])
           (list_to_map [("_type", VStr "waypoint"); ("desc", VStr "home")]));
    reflexivity.
Defined.

(** A location whose [tst] is a text that is not a number. *)
Lemma invalid_time_is_a_range_error_witness :
  handlePostLocation (grid := one_cell_grid) "2024-01-01T00:00:00.000Z"
    (obj [("_type", VStr "location"); ("lat", VNum 35); ("lon", VNum 139);
          ("tst", VStr "soon")]) (World Table.empty [])
  = (Thrown RangeError, World Table.empty []).
Proof.
  apply (invalid_time_is_a_range_error (grid := one_cell_grid)
           "2024-01-01T00:00:00.000Z"
           (obj [("_type", VStr "location"); ("lat", VNum 35); ("lon", VNum 139);
                 ("tst", VStr "soon")])
           (list_to_map [("_type", VStr "location"); ("lat", VNum 35); ("lon", VNum 139);
                         ("tst", VStr "soon")]));
    reflexivity.
Defined.

(** *** More on the bulk import *)

Section BatchImportMore.
Context {grid : HexGrid} {DB : Type} {d1 : D1 DB}.

(** X9. A body whose [locations] is not an array is refused with a 400, and
    the database is not called. *)
Lemma import_expects_a_list (json : value) (body : record) (w : world DB) :
  fields_of json = Some body ->
  Array_isArray (prop body "locations") = false ->
  handleBatchImport json w = (Returned (errorResponse "Expected { locations: [...] }" 400), w).
Proof.
  intros Hbody Harr. unfold handleBatchImport. rewrite Hbody, Harr.
  cbn [negb]. now rewrite orb_true_r.
Qed.




End BatchImportMore.

Section BatchImportOnTable.
Context {grid : HexGrid}.





End BatchImportOnTable.

(** [locations] given as an object. *)
Lemma import_expects_a_list_witness :
  handleBatchImport (grid := one_cell_grid)
    (obj [("locations", obj [("lat", VNum 35); ("lon", VNum 139)])]) (World Table.empty [])
  = (Returned (errorResponse "Expected { locations: [...] }" 400), World Table.empty []).
Proof.
  apply (import_expects_a_list (grid := one_cell_grid)
           (obj [("locations", obj [("lat", VNum 35); ("lon", VNum 139)])])
           (list_to_map [("locations", obj [("lat", VNum 35); ("lon", VNum 139)])]));
    reflexivity.
Defined.



(** *** More on the backfill *)

Section BackfillMore.
Context {grid : HexGrid} {DB : Type} {d1 : D1 DB}.

(** X12. Unlike the import, the backfill does not catch the failure of a page:
    when the database rejects the first batch of UPDATEs, the call fails
    with the database's error after that one batch, and no counters are
    returned. *)
Lemma backfill_stops_at_rejected_page (w : world DB) :
  let rows := d1_select_unindexed 1000 (db w) in
  let page := map backfill_stmt (take 100 rows) in
  rows <> [] ->
  d1_batch page (db w) = None ->
  handleBackfillH3 w = (Thrown D1_ERROR, World (db w) (calls w ++ [Batch page])).
Proof.
  cbv zeta. intros Hrows Hbatch. rewrite handleBackfillH3_unfold. cbv zeta.
  destruct (len _ =? 0) eqn:E.
  { apply Z.eqb_eq in E. unfold len in E.
    destruct (d1_select_unindexed 1000 (db w)); [congruence|simpl in E; lia]. }
  rewrite pages_cons by exact Hrows. cbn [Spec.run_pages].
  unfold backfill_page at 1, bind, db_batch. unfold batchSize. now rewrite Hbatch.
Qed.

End BackfillMore.

Section BackfillOnTableMore.
Context {grid : HexGrid}.

Lemma same_data_set_h3 (c7 c9 : value) (x : Table.location) :
  same_data x (Table.set_h3 c7 c9 x).
Proof. reflexivity. Qed.

Lemma same_data_rewritten (sel : list coord_row) :
  forall x, same_data x (Table.rewritten sel x).
Proof.
  induction sel as [|r sel IH]; intros x; [reflexivity|].
  unfold Table.rewritten in *. cbn [fold_left].
  unfold same_data in *. rewrite <- IH.
  unfold Table.reindex_row. destruct (Table.id x =? row_id r); reflexivity.
Qed.

Lemma db_after_backfill (w : world Table.table) :
  db (snd (handleBackfillH3 w)) = Table.reindex (Table.select_unindexed 1000 (db w)) (db w).
Proof.
  destruct (handleBackfillH3_on_table w) as (resp & cs & E & _).
  now rewrite E.
Qed.

(** X13. On the table, a call of the backfill changes the two index columns
    and nothing else: the rows are the same in number and in order, each
    with all its other columns as before, and no id is used up. *)
Lemma backfill_keeps_the_data (w : world Table.table) :
  let t' := db (snd (handleBackfillH3 w)) in
  Forall2 same_data (Table.rows (db w)) (Table.rows t') /\
  Table.next_id t' = Table.next_id (db w).
Proof.
  cbv zeta. rewrite db_after_backfill. unfold Table.reindex. cbn [Table.rows Table.next_id].
  split; [|reflexivity].
  apply Forall2_fmap_r, Forall_Forall2_diag, Forall_forall.
  intros x _. apply same_data_rewritten.
Qed.

Lemma distinct_ids_eq (rows : list Table.location) (x y : Table.location) :
  NoDup (map Table.id rows) -> x ∈ rows -> y ∈ rows -> Table.id x = Table.id y -> x = y.
Proof.
  induction rows as [|z rows IH]; intros Hnd Hx Hy E; [inversion Hx|].
  cbn [map] in Hnd. apply NoDup_cons in Hnd as [Hz Hnd].
  apply elem_of_cons in Hx as [->|Hx]; apply elem_of_cons in Hy as [->|Hy]; auto.
  - exfalso. apply Hz. rewrite E. apply list_elem_of_fmap. eauto.
  - exfalso. apply Hz. rewrite <- E. apply list_elem_of_fmap. eauto.
Qed.

(** X14. A row that is indexed already is not rewritten: with distinct ids,
    every row that the selection leaves out is after the call what it was
    before, at the same place. *)
Lemma backfill_leaves_indexed_rows (w : world Table.table) (i : nat) (x : Table.location) :
  distinct_ids (db w) ->
  Table.rows (db w) !! i = Some x ->
  Table.unindexed x = false ->
  Table.rows (db (snd (handleBackfillH3 w))) !! i = Some x.
Proof.
  intros Hnd Hx Hidx. rewrite db_after_backfill. unfold Table.reindex. cbn [Table.rows].
  rewrite list_lookup_fmap, Hx. cbn. f_equal.
  apply rewritten_untouched, Forall_forall. intros r Hr E.
  unfold Table.select_unindexed in Hr.
  apply elem_of_take in Hr as (j & Hr & _).
  apply list_elem_of_lookup_2, list_elem_of_fmap in Hr as (y & -> & Hy).
  apply list_elem_of_filter in Hy as [Hun Hy].
  assert (y = x); [|congruence].
  apply (distinct_ids_eq (Table.rows (db w))); auto.
  eapply list_elem_of_lookup_2; eauto.
Qed.


End BackfillOnTableMore.

(** Two rows to index and a database that takes no write. *)
Lemma backfill_stops_at_rejected_page_witness :
  exists page,
    handleBackfillH3 (grid := one_cell_grid) (d1 := rejecting_writes) (World two_old_rows [])
    = (Thrown D1_ERROR, World two_old_rows [Batch page]) /\ length page = 2%nat.
Proof.
  eexists. split.
  - apply (backfill_stops_at_rejected_page (grid := one_cell_grid) (d1 := rejecting_writes)
             (World two_old_rows [])); [discriminate|reflexivity].
  - reflexivity.
Defined.

(** The indexed row put before the two old rows. *)
Lemma backfill_leaves_indexed_rows_witness :
  let indexed :=
    {| Table.id := 7; Table.timestamp := VStr "2024-01-01T12:00:00Z";
       Table.lat := VNum 35; Table.lon := VNum 139; Table.accuracy := VNull;
       Table.source := VStr "owntracks"; Table.place_id := VNull;
       Table.semantic_type := VNull; Table.activity_type := VNull;
       Table.altitude := VNull; Table.speed := VNull;
       Table.h3_res7 := VStr "old7"; Table.h3_res9 := VStr "old9" |} in
  let t := {| Table.rows := indexed :: Table.rows two_old_rows; Table.next_id := 8 |} in
  Table.rows (db (snd (handleBackfillH3 (grid := one_cell_grid) (World t [])))) !! 0%nat
  = Some indexed.
Proof.
  cbv zeta.
  apply (backfill_leaves_indexed_rows (grid := one_cell_grid)).
  - unfold distinct_ids. refine (bool_decide_unpack _ _). vm_compute. exact I.
  - reflexivity.
  - reflexivity.
Defined.

(** *** Authentication *)

Section Base64.

Lemma list_ind3 {A} (P : list A -> Prop) :
  P [] -> (forall a, P [a]) -> (forall a b, P [a; b]) ->
  (forall a b c r, P r -> P (a :: b :: c :: r)) ->
  forall l, P l.
Proof.
  intros H0 H1 H2 H3.
  fix IH 1. intros [|a [|b [|c r]]]; [exact H0 | apply H1 | apply H2 | apply H3, IH].
Qed.

Lemma N_of_ascii_bound (a : ascii) : (N_of_ascii a < 256)%N.
Proof. destruct a as [[] [] [] [] [] [] [] []]; reflexivity. Qed.

Ltac euclid := zify; Z.to_euclidean_division_equations; lia.

Lemma encode_sextets_range (l : list ascii) :
  Forall (fun n => (n < 64)%N) (Text.encode_sextets l).
Proof.
  induction l as [|a|a b|a b c r IH] using list_ind3; cbn [Text.encode_sextets].
  - constructor.
  - pose proof (N_of_ascii_bound a). repeat constructor; euclid.
  - pose proof (N_of_ascii_bound a). pose proof (N_of_ascii_bound b).
    repeat constructor; euclid.
  - pose proof (N_of_ascii_bound a). pose proof (N_of_ascii_bound b).
    pose proof (N_of_ascii_bound c).
    repeat (constructor; [euclid|]). exact IH.
Qed.

Lemma byte_of_code (a : ascii) (n : N) : (n mod 256 = N_of_ascii a)%N -> Text.byte n = a.
Proof. unfold Text.byte. intros ->. apply ascii_N_embedding. Qed.

Lemma decode_encode (l : list ascii) : Text.decode_sextets (Text.encode_sextets l) = l.
Proof.
  induction l as [|a|a b|a b c r IH] using list_ind3;
    cbn [Text.encode_sextets Text.decode_sextets].
  - reflexivity.
  - pose proof (N_of_ascii_bound a). f_equal. apply byte_of_code. euclid.
  - pose proof (N_of_ascii_bound a). pose proof (N_of_ascii_bound b).
    f_equal; [|f_equal]; apply byte_of_code; euclid.
  - pose proof (N_of_ascii_bound a). pose proof (N_of_ascii_bound b).
    pose proof (N_of_ascii_bound c).
    rewrite IH. f_equal; [|f_equal; [|f_equal]]; apply byte_of_code; euclid.
Qed.

(** The alphabet: the character of a sextet is read back as that sextet,
    and it is neither the padding character nor white space. *)
Lemma b64_char_spec (n : N) :
  (n < 64)%N ->
  Text.b64_index (Text.b64_char n) = Some n /\
  JS.is_char (Text.b64_char n) "=" = false /\
  Text.is_html_space (Text.b64_char n) = false /\
  Text.is_space (Text.b64_char n) = false.
Proof.
  intros Hn.
  pose (check := fun n =>
          match Text.b64_index (Text.b64_char n) with
          | Some m => (m =? n)%N
          | None => false
          end
          && negb (JS.is_char (Text.b64_char n) "=")
          && negb (Text.is_html_space (Text.b64_char n))
          && negb (Text.is_space (Text.b64_char n))).
  assert (H : forallb check (map N.of_nat (seq 0 64)) = true) by (vm_compute; reflexivity).
  rewrite List.forallb_forall in H.
  assert (Hin : In n (map N.of_nat (seq 0 64))).
  { apply in_map_iff. exists (N.to_nat n). split; [lia|]. apply in_seq. lia. }
  apply H in Hin. unfold check in Hin.
  rewrite !andb_true_iff, !negb_true_iff in Hin. destruct Hin as [[[H1 H2] H3] H4].
  destruct (Text.b64_index (Text.b64_char n)) as [m|]; [|discriminate].
  apply N.eqb_eq in H1. subst m. auto.
Qed.

Lemma mapM_b64_index (sx : list N) :
  Forall (fun n => (n < 64)%N) sx -> mapM Text.b64_index (map Text.b64_char sx) = Some sx.
Proof.
  induction 1 as [|n sx Hn _ IH]; [reflexivity|].
  cbn [map mapM]. rewrite (proj1 (b64_char_spec n Hn)). cbn. rewrite IH. reflexivity.
Qed.

(** The padding of the encoding of [l]. *)
Lemma padding_cases (l : list ascii) :
  match (length l mod 3)%nat with
  | 1%nat => Text.chars "=="
  | 2%nat => Text.chars "="
  | _ => []
  end = [] \/
  match (length l mod 3)%nat with
  | 1%nat => Text.chars "=="
  | 2%nat => Text.chars "="
  | _ => []
  end = ["="%char] \/
  match (length l mod 3)%nat with
  | 1%nat => Text.chars "=="
  | 2%nat => Text.chars "="
  | _ => []
  end = ["="%char; "="%char].
Proof. destruct (length l mod 3)%nat as [|[|[|k]]]; auto. Qed.

Lemma strip_padding_spec (E pad : list ascii) :
  Forall (fun c => JS.is_char c "=" = false) E ->
  pad = [] \/ pad = ["="%char] \/ pad = ["="%char; "="%char] ->
  Text.strip_padding (E ++ pad) = E.
Proof.
  intros HE Hpad. unfold Text.strip_padding.
  assert (Hlast : match rev E with c :: _ => JS.is_char c "=" = false | [] => True end).
  { destruct (rev E) as [|c r] eqn:Er; [exact I|].
    rewrite Forall_forall in HE. apply HE.
    rewrite <- (rev_involutive E), Er. cbn [rev]. apply elem_of_app. right. constructor. }
  destruct Hpad as [-> | [-> | ->]]; rewrite rev_app_distr; cbn [rev app].
  - rewrite app_nil_r.
    destruct (rev E) as [|c1 [|c2 r]]; [reflexivity|now rewrite Hlast..].
  - destruct (rev E) as [|c2 r] eqn:Er.
    + apply (f_equal (@rev ascii)) in Er. rewrite rev_involutive in Er. now subst.
    + change (JS.is_char "=" "=") with true. cbv iota.
      rewrite Hlast. rewrite <- (rev_involutive E), Er. reflexivity.
  - change (JS.is_char "=" "=") with true. cbv iota. apply rev_involutive.
Qed.

Lemma encoding_length (l : list ascii) :
  let E := map Text.b64_char (Text.encode_sextets l) in
  let pad := match (length l mod 3)%nat with
             | 1%nat => Text.chars "=="
             | 2%nat => Text.chars "="
             | _ => []
             end in
  (length (E ++ pad) mod 4 = 0)%nat /\ (length E mod 4 <> 1)%nat.
Proof.
  cbv zeta. induction l as [|a|a b|a b c r IH] using list_ind3.
  - split; [reflexivity|discriminate].
  - split; [reflexivity|discriminate].
  - split; [reflexivity|discriminate].
  - cbn [Text.encode_sextets map length app].
    replace (S (S (S (length r)))) with (length r + 1 * 3)%nat by lia.
    rewrite Nat.Div0.mod_add.
    destruct IH as [IH1 IH2]. split.
    + match goal with
      | |- (S (S (S (S ?n))) mod 4 = 0)%nat =>
          replace (S (S (S (S n)))) with (n + 1 * 4)%nat by lia
      end.
      rewrite Nat.Div0.mod_add. exact IH1.
    + match goal with
      | |- (S (S (S (S ?n))) mod 4 <> 1)%nat =>
          replace (S (S (S (S n)))) with (n + 1 * 4)%nat by lia
      end.
      rewrite Nat.Div0.mod_add. exact IH2.
Qed.

Lemma filter_all {A} (f : A -> bool) (l : list A) :
  Forall (fun x => f x = true) l -> List.filter f l = l.
Proof. induction 1 as [|x l Hx _ IH]; [reflexivity|]. cbn. now rewrite Hx, IH. Qed.

(** Decoding is the inverse of encoding: [atob(btoa(s))] is [s]. *)
Lemma atob_btoa (s : string) : Text.atob (Text.btoa s) = Some s.
Proof.
  unfold Text.atob, Text.btoa. rewrite chars_text.
  set (l := Text.chars s).
  set (E := map Text.b64_char (Text.encode_sextets l)).
  set (pad := match (length l mod 3)%nat with
              | 1%nat => Text.chars "=="
              | 2%nat => Text.chars "="
              | _ => []
              end).
  pose proof (encode_sextets_range l) as Hrange.
  assert (HE : Forall (fun c => JS.is_char c "=" = false /\ Text.is_html_space c = false) E).
  { apply Forall_fmap. eapply Forall_impl; [exact Hrange|].
    intros n Hn. cbn. destruct (b64_char_spec n Hn) as (_ & ? & ? & _). auto. }
  assert (Hpad : pad = [] \/ pad = ["="%char] \/ pad = ["="%char; "="%char])
    by apply padding_cases.
  rewrite filter_all.
  2:{ apply Forall_app. split.
      - eapply Forall_impl; [exact HE|]. intros c [_ ->]. reflexivity.
      - destruct Hpad as [-> | [-> | ->]]; repeat constructor. }
  destruct (encoding_length l) as [Hlen Hlen']. fold E pad in Hlen, Hlen'.
  rewrite Hlen. cbn [Nat.eqb].
  rewrite strip_padding_spec; [|eapply Forall_impl; [exact HE|]; now intros c [? _]|exact Hpad].
  destruct (Nat.eqb_spec (length E mod 4) 1) as [?|_]; [contradiction|].
  unfold E. rewrite mapM_b64_index by exact Hrange. cbn.
  rewrite decode_encode. unfold l. now rewrite text_chars.
Qed.

End Base64.

Section StringMethods.

Lemma starts_with_app (p s : list ascii) : JS.starts_with p (p ++ s) = Some s.
Proof.
  induction p as [|c p IH]; [now destruct s|].
  cbn [app JS.starts_with]. now rewrite Ascii.eqb_refl.
Qed.

Lemma starts_with_inv (p : list ascii) :
  forall s r, JS.starts_with p s = Some r -> s = (p ++ r)%list.
Proof.
  induction p as [|c p IH]; intros s r.
  - destruct s; now intros [= <-].
  - destruct s as [|d s]; [discriminate|]. cbn [JS.starts_with].
    destruct (Ascii.eqb_spec c d) as [<-|]; [|discriminate].
    intros E. apply IH in E. now subst.
Qed.

Lemma startsWith_prefix (p t : string) : Text.startsWith (p +:+ t) p = true.
Proof. unfold Text.startsWith. now rewrite chars_app, starts_with_app. Qed.

Lemma startsWith_inv (s p : string) :
  Text.startsWith s p = true -> exists t, s = p +:+ t.
Proof.
  unfold Text.startsWith.
  destruct (JS.starts_with _ _) as [r|] eqn:E; [|discriminate].
  intros _. apply starts_with_inv in E. exists (Text.text r).
  rewrite <- (text_chars s), E, text_app. now rewrite text_chars.
Qed.

(** Replacing the prefix of a string by nothing leaves the rest. *)
Lemma replace_prefix (p t : string) : Text.replace (p +:+ t) p "" = t.
Proof.
  unfold Text.replace. rewrite chars_app.
  assert (U : forall q r s,
             Text.replace_chars q r s
             = match JS.starts_with q s with
               | Some rest => (r ++ rest)%list
               | None => match s with
                         | c :: s' => c :: Text.replace_chars q r s'
                         | [] => []
                         end
               end) by (intros q r []; reflexivity).
  rewrite U, starts_with_app. apply text_chars.
Qed.

Lemma drop_space_id (l : list ascii) :
  Forall (fun c => Text.is_space c = false) l -> Text.drop_space l = l.
Proof. destruct 1 as [|c l Hc _]; [reflexivity|]. cbn. now rewrite Hc. Qed.

Lemma trim_id (l : list ascii) :
  Forall (fun c => Text.is_space c = false) l -> Text.trim (Text.text l) = Text.text l.
Proof.
  intros H. unfold Text.trim. rewrite chars_text, (drop_space_id l H).
  rewrite drop_space_id by now apply List.Forall_rev.
  now rewrite rev_involutive.
Qed.

Lemma trim_btoa (s : string) : Text.trim (Text.btoa s) = Text.btoa s.
Proof.
  unfold Text.btoa. apply trim_id, Forall_app. split.
  - apply Forall_fmap. eapply Forall_impl; [apply encode_sextets_range|].
    intros n Hn. cbn. now destruct (b64_char_spec n Hn) as (_ & _ & _ & ?).
  - destruct (padding_cases (Text.chars s)) as [-> | [-> | ->]]; repeat constructor.
Qed.

Lemma split_chars_app (sep : ascii) (a b : list ascii) :
  Forall (fun c => c <> sep) a ->
  Text.split_chars sep (a ++ sep :: b) = a :: Text.split_chars sep b.
Proof.
  induction 1 as [|c a Hc _ IH]; cbn [app Text.split_chars].
  - now rewrite Ascii.eqb_refl.
  - destruct (Ascii.eqb_spec c sep); [contradiction|]. now rewrite IH.
Qed.

Lemma split_chars_whole (sep : ascii) (a : list ascii) :
  Forall (fun c => c <> sep) a -> Text.split_chars sep a = [a].
Proof.
  induction 1 as [|c a Hc _ IH]; cbn [Text.split_chars]; [reflexivity|].
  destruct (Ascii.eqb_spec c sep); [contradiction|]. now rewrite IH.
Qed.

(** No piece of a split contains the separator. *)
Lemma split_chars_pieces (sep : ascii) (s : list ascii) :
  Forall (Forall (fun c => c <> sep)) (Text.split_chars sep s).
Proof.
  induction s as [|c s IH]; cbn [Text.split_chars]; [repeat constructor|].
  destruct (Ascii.eqb_spec c sep) as [->|Hc]; [constructor; [constructor|exact IH]|].
  destruct (Text.split_chars sep s) as [|piece pieces].
  - repeat constructor. exact Hc.
  - inversion IH; subst. constructor; [constructor|]; assumption.
Qed.

End StringMethods.

Section Authenticate.

(** X16. The Bearer scheme: the header [Bearer t] is accepted exactly when [t],
    with the white space around it removed, is the token. *)
Lemma bearer_token (t API_TOKEN : string) :
  Auth.authenticate (Some ("Bearer " +:+ t)) API_TOKEN = String.eqb (Text.trim t) API_TOKEN.
Proof.
  unfold Auth.authenticate.
  change (String.eqb ("Bearer " +:+ t) "") with false. cbv iota.
  now rewrite startsWith_prefix, replace_prefix.
Qed.

(** X17. The Basic scheme, as a client builds it: the credentials [user:pass]
    in base64 are accepted exactly when the password is the token (the
    user name is not looked at), for a name and a password without a
    colon. *)
Lemma basic_credentials (user pass API_TOKEN : string) :
  ":"%char ∉ Text.chars user ->
  ":"%char ∉ Text.chars pass ->
  Auth.authenticate (Some ("Basic " +:+ Text.btoa (user +:+ ":" +:+ pass))) API_TOKEN
  = String.eqb pass API_TOKEN.
Proof.
  intros Hu Hp. unfold Auth.authenticate.
  change (String.eqb ("Basic " +:+ ?x) "") with false. cbv iota.
  change (Text.startsWith ("Basic " +:+ ?x) "Bearer ") with false. cbv iota.
  rewrite startsWith_prefix, replace_prefix, trim_btoa, atob_btoa.
  unfold Text.split. rewrite !chars_app. cbn [Text.chars app].
  rewrite split_chars_app, split_chars_whole.
  - cbn [map]. now rewrite text_chars.
  - apply Forall_forall. intros c Hc ->. contradiction.
  - apply Forall_forall. intros c Hc ->. contradiction.
Qed.

(** X18. A token with a colon in it cannot be presented in the Basic scheme:
    the password that is compared is a piece of the decoded credentials
    between colons. *)
Lemma basic_token_has_no_colon (auth API_TOKEN : string) :
  Text.startsWith auth "Basic " = true ->
  Auth.authenticate (Some auth) API_TOKEN = true ->
  ":"%char ∉ Text.chars API_TOKEN.
Proof.
  intros Hb. apply startsWith_inv in Hb as [t ->]. unfold Auth.authenticate.
  change (String.eqb ("Basic " +:+ t) "") with false. cbv iota.
  change (Text.startsWith ("Basic " +:+ t) "Bearer ") with false. cbv iota.
  rewrite startsWith_prefix.
  destruct (Text.atob _) as [decoded|]; [|discriminate].
  unfold Text.split.
  pose proof (split_chars_pieces ":" (Text.chars decoded)) as Hpieces.
  destruct (Text.split_chars ":" (Text.chars decoded)) as [|user [|password pieces]];
    try discriminate.
  cbn [map]. intros E. apply String.eqb_eq in E. subst API_TOKEN.
  rewrite chars_text.
  inversion Hpieces as [|? ? _ Hrest]; subst. inversion Hrest as [|? ? Hpw _]; subst.
  rewrite Forall_forall in Hpw. intros Hin. now apply (Hpw _ Hin).
Qed.

End Authenticate.

(** The credentials [user:secret]. *)
Lemma basic_credentials_witness :
  Text.btoa "user:secret" = "dXNlcjpzZWNyZXQ=" /\
  Auth.authenticate (Some "Basic dXNlcjpzZWNyZXQ=") "secret" = true /\
  Auth.authenticate (Some "Basic dXNlcjpzZWNyZXQ=") "user" = false.
Proof.
  split; [reflexivity|]. split.
  - refine (eq_trans (basic_credentials "user" "secret" "secret" _ _) _).
    + refine (bool_decide_unpack _ _). vm_compute. exact I.
    + refine (bool_decide_unpack _ _). vm_compute. exact I.
    + reflexivity.
  - refine (eq_trans (basic_credentials "user" "secret" "user" _ _) _).
    + refine (bool_decide_unpack _ _). vm_compute. exact I.
    + refine (bool_decide_unpack _ _). vm_compute. exact I.
    + reflexivity.
Defined.

(** The token [secret], presented with the name [user]. *)
Lemma basic_token_has_no_colon_witness : ":"%char ∉ Text.chars "secret".
Proof.
  apply (basic_token_has_no_colon "Basic dXNlcjpzZWNyZXQ=" "secret"); reflexivity.
Defined.

(** *** The router and the read handlers *)

Section Router.
Import Edge.
Context {grid : HexGrid} {DB : Type} {d1 : D1 DB} {d1r : D1Read DB}.

Lemma respond_world (m : M DB Response) (w : world DB) : snd (respond m w) = snd (m w).
Proof. unfold respond. now destruct (m w) as [[r|e] w']. Qed.

Lemma db_first_world (sql : string) (params : list param) (w : world DB) :
  snd (db_first sql params w) = w.
Proof. unfold db_first. now destruct (d1_first sql params (db w)). Qed.

(** The health check answers 200 with the status ok whatever the
    database does: a failure of the count is caught and shown as a
    database that is not initialized. Nothing is written. *)
Lemma handleHealth_answers (w : world DB) :
  exists r, handleHealth w = (Returned r, w) /\ status r = 200 /\
            field r "status" = VStr "ok" /\ field r "service" = VStr "location-sync".
Proof.
  unfold handleHealth, try_catch, bind, db_first.
  destruct (d1_first _ _ (db w)) as [row|]; eexists; (split; [reflexivity|]);
    repeat split; reflexivity.
Qed.

Lemma handleGetLatest_world (w : world DB) : snd (handleGetLatest w) = w.
Proof.
  unfold handleGetLatest, bind, db_first.
  destruct (d1_first _ _ (db w)) as [[row|]|]; reflexivity.
Qed.


Lemma getLocations_world (searchParams : gmap string string) (w : world DB) :
  snd (getLocations searchParams w) = w.
Proof.
  unfold getLocations.
  destruct (handleGetLocations searchParams) as [r|query params meta]; [reflexivity|].
  unfold bind, db_all. now destruct (d1_all query params (db w)).
Qed.

Ltac route req p m E :=
  destruct (String.eqb (pathname req) p && String.eqb (method req) m) eqn:E.

Lemma eqb_and (a b c d : string) :
  String.eqb a b && String.eqb c d = true <-> a = b /\ c = d.
Proof. now rewrite andb_true_iff, !String.eqb_eq. Qed.

(** X19. Only an authenticated POST to one of the three write routes can
    change anything: every other call leaves the database as it was and
    makes no call to its write interface. *)
Lemma writes_need_authentication (API_TOKEN now : string) (req : request) (w : world DB) :
  snd (fetch API_TOKEN now req w) <> w ->
  Auth.authenticate (request_headers req !! "authorization") API_TOKEN = true /\
  method req = "POST" /\
  (pathname req = "/locations" \/ pathname req = "/locations/batch"
   \/ pathname req = "/locations/backfill-h3").
Proof.
  assert (Hsame : forall A : Prop, w <> w -> A) by (intros A H; now contradiction H).
  unfold fetch. destruct (handleCors req); [apply Hsame|]. cbv zeta.
  route req "/health" "GET" E1.
  { rewrite respond_world. destruct (handleHealth_answers w) as (r & -> & _). apply Hsame. }
  route req "/debug" "POST" E2; [apply Hsame|].
  destruct (Auth.authenticate _ _); cbn [negb]; [|apply Hsame].
  route req "/locations" "GET" E3.
  { rewrite respond_world, getLocations_world. apply Hsame. }
  route req "/locations/latest" "GET" E4.
  { rewrite respond_world, handleGetLatest_world. apply Hsame. }
  route req "/locations" "POST" E5; [apply eqb_and in E5 as [-> ->]; auto|].
  route req "/locations/batch" "POST" E6; [apply eqb_and in E6 as [-> ->]; auto|].
  route req "/locations/backfill-h3" "POST" E7; [apply eqb_and in E7 as [-> ->]; auto 6|].
  apply Hsame.
Qed.

(** X20. Without a valid token a call changes nothing, and it is answered
    with the 401 unless it is a preflight, the health check or the debug
    route; an unknown path is a 401 too, not a 404. *)
Lemma without_token (API_TOKEN now : string) (req : request) (w : world DB) :
  Auth.authenticate (request_headers req !! "authorization") API_TOKEN = false ->
  snd (fetch API_TOKEN now req w) = w /\
  (fst (fetch API_TOKEN now req w) = Responded unauthorized
   \/ method req = "OPTIONS"
   \/ (pathname req = "/health" /\ method req = "GET")
   \/ (pathname req = "/debug" /\ method req = "POST")).
Proof.
  intros Hauth. unfold fetch, handleCors.
  destruct (String.eqb_spec (method req) "OPTIONS") as [->|_]; [auto|]. cbv zeta.
  route req "/health" "GET" E1.
  { rewrite respond_world. destruct (handleHealth_answers w) as (r & -> & _).
    apply eqb_and in E1. auto. }
  route req "/debug" "POST" E2; [apply eqb_and in E2; auto|].
  rewrite Hauth. auto.
Qed.

(** X21. The health check needs no token: GET /health is answered 200
    with the status ok whatever the Authorization header and whatever the
    database does, and nothing is written. *)
Lemma health_is_always_ok (API_TOKEN now : string) (req : request) (w : world DB) :
  method req = "GET" ->
  pathname req = "/health" ->
  exists r,
    fetch API_TOKEN now req w = (Responded (json_http r), w) /\
    status r = 200 /\ field r "status" = VStr "ok".
Proof.
  intros Hm Hp. unfold fetch, handleCors. rewrite Hm, Hp. cbn [String.eqb Ascii.eqb Bool.eqb andb].
  destruct (handleHealth_answers w) as (r & E & Hs & Hok & _).
  exists r. unfold respond. rewrite E. auto.
Qed.



Lemma respond_json (m : M DB Response) (w : world DB) (r : http_response) :
  fst (respond m w) = Responded r -> exists r0, r = json_http r0.
Proof.
  unfold respond. destruct (m w) as [[r0|e] w']; [|discriminate].
  intros [= <-]. eauto.
Qed.

Lemma with_json_json (h : value -> M DB Response) (req : request) (w : world DB)
    (r : http_response) :
  fst (with_json req h w) = Responded r -> exists r0, r = json_http r0.
Proof.
  unfold with_json. destruct (body_json req); [apply respond_json|discriminate].
Qed.

(** X24. Every response other than the 401 allows any origin: the
    preflight and all JSON responses, errors included, carry
    [Access-Control-Allow-Origin: *]. *)
Lemma responses_allow_any_origin (API_TOKEN now : string) (req : request) (w : world DB)
    (r : http_response) :
  fst (fetch API_TOKEN now req w) = Responded r ->
  r = unauthorized \/ ("Access-Control-Allow-Origin", "*") ∈ headers r.
Proof.
  assert (Hjson : (exists r0, r = json_http r0) ->
                  r = unauthorized \/ ("Access-Control-Allow-Origin", "*") ∈ headers r).
  { intros [r0 ->]. right. apply list_elem_of_In. cbn. auto. }
  unfold fetch, handleCors.
  destruct (String.eqb (method req) "OPTIONS").
  { intros [= <-]. right. apply list_elem_of_In. cbn. auto. }
  cbv zeta.
  route req "/health" "GET" E1; [intros E; eapply Hjson, respond_json, E|].
  route req "/debug" "POST" E2; [intros [= <-]; eauto|].
  destruct (Auth.authenticate _ _); cbn [negb]; [|intros [= <-]; auto].
  route req "/locations" "GET" E3; [intros E; eapply Hjson, respond_json, E|].
  route req "/locations/latest" "GET" E4; [intros E; eapply Hjson, respond_json, E|].
  route req "/locations" "POST" E5; [intros E; eapply Hjson, with_json_json, E|].
  route req "/locations/batch" "POST" E6; [intros E; eapply Hjson, with_json_json, E|].
  route req "/locations/backfill-h3" "POST" E7; [intros E; eapply Hjson, respond_json, E|].
  intros [= <-]. eauto.
Qed.

End Router.

(** The backfill called with the token on the two old rows: one batch. *)
Lemma writes_need_authentication_witness :
  let req := plain_request "POST" "/locations/backfill-h3"
               [("authorization", "Bearer secret")] in
  Auth.authenticate (Edge.request_headers req !! "authorization") "secret" = true /\
  Edge.method req = "POST" /\
  (Edge.pathname req = "/locations" \/ Edge.pathname req = "/locations/batch"
   \/ Edge.pathname req = "/locations/backfill-h3").
Proof.
  cbv zeta.
  apply (writes_need_authentication (grid := one_cell_grid) (d1r := answering None None)
           "secret" "2024-01-01T00:00:00.000Z"
           (plain_request "POST" "/locations/backfill-h3" [("authorization", "Bearer secret")])
           (World two_old_rows [])).
  intros E. apply (f_equal calls) in E. vm_compute in E. discriminate E.
Defined.

(** A wrong token on a path that does not exist. *)
Lemma without_token_witness :
  Edge.fetch (grid := one_cell_grid) (d1r := answering None None)
    "secret" "2024-01-01T00:00:00.000Z"
    (plain_request "GET" "/nowhere" [("authorization", "Bearer guess")])
    (World Table.empty [])
  = (Edge.Responded Edge.unauthorized, World Table.empty []).
Proof.
  destruct (without_token (grid := one_cell_grid) (d1r := answering None None)
              "secret" "2024-01-01T00:00:00.000Z"
              (plain_request "GET" "/nowhere" [("authorization", "Bearer guess")])
              (World Table.empty []) eq_refl) as [Hw H].
  apply injective_projections; [|exact Hw].
  destruct H as [H|[H|[[H _]|[H _]]]]; [exact H|vm_compute in H; discriminate H..].
Defined.

(** The health check of a database whose reads fail. *)
Lemma health_is_always_ok_witness :
  exists r,
    Edge.fetch (grid := one_cell_grid) (d1r := answering None None)
      "secret" "2024-01-01T00:00:00.000Z" (plain_request "GET" "/health" [])
      (World Table.empty [])
    = (Edge.Responded (Edge.json_http r), World Table.empty []) /\
    field r "db" = VStr "not initialized".
Proof.
  destruct (health_is_always_ok (grid := one_cell_grid) (d1r := answering None None)
              "secret" "2024-01-01T00:00:00.000Z" (plain_request "GET" "/health" [])
              (World Table.empty []) eq_refl eq_refl) as (r & E & _).
  exists r. split; [exact E|].
  destruct r as [st bd]. vm_compute in E. injection E as _ <-. reflexivity.
Defined.


(** The 404 of a path that does not exist, asked for with the token. *)
Lemma responses_allow_any_origin_witness :
  let r := Edge.json_http (errorResponse "Not found" 404) in
  Edge.fetch (grid := one_cell_grid) (d1r := answering None None)
    "secret" "2024-01-01T00:00:00.000Z"
    (plain_request "GET" "/nowhere" [("authorization", "Bearer secret")])
    (World Table.empty [])
  = (Edge.Responded r, World Table.empty []) /\
  ("Access-Control-Allow-Origin", "*") ∈ Edge.headers r.
Proof.
  cbv zeta. split; [reflexivity|].
  destruct (responses_allow_any_origin (grid := one_cell_grid) (d1r := answering None None)
              "secret" "2024-01-01T00:00:00.000Z"
              (plain_request "GET" "/nowhere" [("authorization", "Bearer secret")])
              (World Table.empty [])
              (Edge.json_http (errorResponse "Not found" 404)) eq_refl) as [H|H];
    [discriminate H|exact H].
Defined.
